(** * Chat personality engine: memory extractor and style rewriter

    A shallow embedding of [memory_extractor.py] and [personality_engine.py].

    Python [str] values are modelled as [string]; a character is read as a
    code point in the range 0..255 (Latin-1), which is the range on which
    [str.lower], [str.isspace] and the [re] character classes are modelled.
    Dictionaries with a fixed key set are records; the [Counter] of
    [extract_emotions] is an insertion-ordered association list.  Python
    exceptions are values of an error monad. *)

From Stdlib Require Import String Ascii List ZArith Lia Bool Arith.
Import ListNotations.
Open Scope string_scope.
Open Scope list_scope.

(** ** Python string primitives *)

Module PyStr.

Definition ord (c : ascii) : nat := nat_of_ascii c.

(** [str.isspace] on one character of the Latin-1 range. *)
Definition isspace (c : ascii) : bool :=
  let n := ord c in
  (((9 <=? n) && (n <=? 13)) || ((28 <=? n) && (n <=? 32))
   || (n =? 133) || (n =? 160))%nat.

Definition isdigit (c : ascii) : bool :=
  let n := ord c in ((48 <=? n) && (n <=? 57))%nat.

(** [str.lower] on one character: A-Z, and the Latin-1 capitals
    0xC0-0xDE except the multiplication sign 0xD7. *)
Definition lower_char (c : ascii) : ascii :=
  let n := ord c in
  if (((65 <=? n) && (n <=? 90))
      || ((192 <=? n) && (n <=? 222) && negb (n =? 215)))%nat
  then ascii_of_nat (n + 32) else c.

Fixpoint lower (s : string) : string :=
  match s with
  | EmptyString => EmptyString
  | String c s' => String (lower_char c) (lower s')
  end.

Fixpoint startswith (p s : string) : bool :=
  match p, s with
  | EmptyString, _ => true
  | String a p', String b s' => Ascii.eqb a b && startswith p' s'
  | String _ _, EmptyString => false
  end.

(** [sub in s]. *)
Fixpoint contains (sub s : string) : bool :=
  if startswith sub s then true
  else match s with
       | EmptyString => false
       | String _ s' => contains sub s'
       end.

(** [s.replace(old, new)] for a non-empty [old]: every occurrence, found
    from left to right without overlap.  [skip] counts the characters of
    the occurrence just replaced that are still to be dropped. *)
Fixpoint replace_from (old new : string) (skip : nat) (s : string) : string :=
  match s with
  | EmptyString => EmptyString
  | String c s' =>
      match skip with
      | S k => replace_from old new k s'
      | O => if startswith old s
             then new ++ replace_from old new (String.length old - 1) s'
             else String c (replace_from old new 0 s')
      end
  end.

Definition replace (old new s : string) : string := replace_from old new 0 s.

(** [s.split(sep)] for a non-empty [sep]. *)
Fixpoint split_from (sep : string) (skip : nat) (cur s : string) : list string :=
  match s with
  | EmptyString => [cur]
  | String c s' =>
      match skip with
      | S k => split_from sep k cur s'
      | O => if startswith sep s
             then cur :: split_from sep (String.length sep - 1) EmptyString s'
             else split_from sep 0 (cur ++ String c EmptyString) s'
      end
  end.

Definition split (sep s : string) : list string := split_from sep 0 EmptyString s.

Fixpoint lstrip (s : string) : string :=
  match s with
  | EmptyString => EmptyString
  | String c s' => if isspace c then lstrip s' else s
  end.

Fixpoint rstrip (s : string) : string :=
  match s with
  | EmptyString => EmptyString
  | String c s' =>
      match rstrip s' with
      | EmptyString => if isspace c then EmptyString else String c EmptyString
      | r => String c r
      end
  end.

Definition strip (s : string) : string := rstrip (lstrip s).

Fixpoint take (n : nat) (s : string) : string :=
  match n, s with
  | S k, String c s' => String c (take k s')
  | _, _ => EmptyString
  end.

(** [s[n:]] *)
Fixpoint drop (n : nat) (s : string) : string :=
  match n, s with
  | S k, String _ s' => drop k s'
  | _, _ => s
  end.

Fixpoint mem (x : string) (l : list string) : bool :=
  match l with
  | [] => false
  | y :: l' => String.eqb x y || mem x l'
  end.

End PyStr.

(** ** The fragment of [re] the extractor uses

    A backtracking matcher in continuation-passing style: alternatives are
    tried in order, a greedy quantifier tries one more iteration first, a
    lazy one tries to stop first, and the first success is the match, as in
    the interpreter's engine. *)

Module Re.

Inductive item : Type :=
| IChar (c : ascii)             (* a literal member *)
| IRange (lo hi : ascii)        (* a-z *)
| ISpace                        (* \s *)
| IDigit.                       (* \d *)

Inductive regex : Type :=
| Lit (c : ascii)
| Set_ (negated : bool) (items : list item)
| Seq (r1 r2 : regex)
| Alt (r1 r2 : regex)
| Eps
| Repeat (lo : nat) (hi : option nat) (greedy : bool) (r : regex)
| Group (i : nat) (r : regex)
| Eol.                          (* $ without MULTILINE *)

Definition caps : Type := list (nat * string).
Definition mres : Type := (string * caps)%type.
Definition cont : Type := string -> caps -> option mres.

(** Code points [lo..hi] of a range. *)
Definition range_chars (lo hi : ascii) : list ascii :=
  map (fun k => ascii_of_nat (PyStr.ord lo + k))
      (seq 0 (S (PyStr.ord hi) - PyStr.ord lo)).

(** Without IGNORECASE a member is compared as it is.  With IGNORECASE the
    compiled set holds the lowercase of every literal and of every
    character of a range, and the subject character is lowercased before
    the test. *)
Definition item_matches (ic : bool) (it : item) (ch : ascii) : bool :=
  match it with
  | IChar c =>
      if ic then Ascii.eqb (PyStr.lower_char c) (PyStr.lower_char ch)
      else Ascii.eqb c ch
  | IRange lo hi =>
      if ic
      then existsb (fun c => Ascii.eqb (PyStr.lower_char c) (PyStr.lower_char ch))
                   (range_chars lo hi)
      else ((PyStr.ord lo <=? PyStr.ord ch) && (PyStr.ord ch <=? PyStr.ord hi))%nat
  | ISpace => PyStr.isspace ch
  | IDigit => PyStr.isdigit ch
  end.

Definition set_matches (ic negated : bool) (items : list item) (ch : ascii) : bool :=
  xorb negated (existsb (fun it => item_matches ic it ch) items).

Definition lit_matches (ic : bool) (c ch : ascii) : bool :=
  if ic then Ascii.eqb (PyStr.lower_char c) (PyStr.lower_char ch)
  else Ascii.eqb c ch.

(** [$]: at the end of the string, or just before a final newline. *)
Definition at_eol (s : string) : bool :=
  match s with
  | EmptyString => true
  | String c EmptyString => Ascii.eqb c "010"%char
  | _ => false
  end.

Definition below (n : nat) (hi : option nat) : bool :=
  match hi with
  | None => true
  | Some h => (n <? h)%nat
  end.

Definition set_group (i : nat) (v : string) (c : caps) : caps := (i, v) :: c.

Fixpoint group (c : caps) (i : nat) : option string :=
  match c with
  | [] => None
  | (j, v) :: c' => if (j =? i)%nat then Some v else group c' i
  end.

(** The text consumed between the suffix [s] and its suffix [s']. *)
Definition consumed (s s' : string) : string :=
  PyStr.take (String.length s - String.length s') s.

Section Loop.
Variable body : string -> caps -> cont -> option mres.
Variables (lo : nat) (hi : option nat) (greedy : bool).
Variable k : cont.

(** [n] iterations are done.  An iteration that consumes nothing ends
    the loop, so [S (length s)] units of fuel are never used up. *)
Fixpoint loop (fuel n : nat) (s : string) (c : caps) : option mres :=
  match fuel with
  | O => None
  | S fuel' =>
      let again (_ : unit) :=
        if below n hi
        then body s c (fun s' c' =>
                         if (String.length s' <? String.length s)%nat
                         then loop fuel' (S n) s' c' else None)
        else None in
      let stop (_ : unit) := if (lo <=? n)%nat then k s c else None in
      if greedy
      then match again tt with Some m => Some m | None => stop tt end
      else match stop tt with Some m => Some m | None => again tt end
  end.
End Loop.

Fixpoint rmatch (ic : bool) (r : regex) (s : string) (c : caps) (k : cont)
  : option mres :=
  match r with
  | Lit a =>
      match s with
      | String b s' => if lit_matches ic a b then k s' c else None
      | EmptyString => None
      end
  | Set_ neg items =>
      match s with
      | String b s' => if set_matches ic neg items b then k s' c else None
      | EmptyString => None
      end
  | Seq r1 r2 => rmatch ic r1 s c (fun s' c' => rmatch ic r2 s' c' k)
  | Alt r1 r2 =>
      match rmatch ic r1 s c k with
      | Some m => Some m
      | None => rmatch ic r2 s c k
      end
  | Eps => k s c
  | Repeat lo hi greedy r1 =>
      loop (rmatch ic r1) lo hi greedy k (S (String.length s)) 0 s c
  | Group i r1 =>
      rmatch ic r1 s c (fun s' c' => k s' (set_group i (consumed s s') c'))
  | Eol => if at_eol s then k s c else None
  end.

Definition accept : cont := fun s c => Some (s, c).

(** A match object: where the match starts, the groups, and the text
    after the match. *)
Record match_object : Type := MkMatch {
  m_start : nat;
  m_groups : caps;
  m_rest : string
}.

Fixpoint search_from (ic : bool) (r : regex) (pos : nat) (s : string)
  : option match_object :=
  match rmatch ic r s [] accept with
  | Some (rest, c) => Some (MkMatch pos c rest)
  | None =>
      match s with
      | EmptyString => None
      | String _ s' => search_from ic r (S pos) s'
      end
  end.

(** [re.search(pattern, s, flags)]. *)
Definition search (ic : bool) (r : regex) (s : string) : option match_object :=
  search_from ic r 0 s.

(** [re.sub(pattern, repl, s)] for a pattern that matches no empty
    string: the leftmost match at or after each position is replaced. *)
Fixpoint sub_from (r : regex) (repl : string) (skip : nat) (s : string) : string :=
  match s with
  | EmptyString => EmptyString
  | String ch s' =>
      match skip with
      | S n => sub_from r repl n s'
      | O =>
          match rmatch false r s [] accept with
          | Some (rest, _) =>
              match String.length s - String.length rest with
              | O => String ch (sub_from r repl 0 s')
              | S n => repl ++ sub_from r repl n s'
              end
          | None => String ch (sub_from r repl 0 s')
          end
      end
  end.

Definition sub (r : regex) (repl s : string) : string := sub_from r repl 0 s.

(** Pattern syntax. *)
Fixpoint lit_ (s : string) : regex :=
  match s with
  | EmptyString => Eps
  | String c EmptyString => Lit c
  | String c s' => Seq (Lit c) (lit_ s')
  end.

Fixpoint seq_ (rs : list regex) : regex :=
  match rs with
  | [] => Eps
  | [r] => r
  | r :: rs' => Seq r (seq_ rs')
  end.

Fixpoint alt_ (rs : list regex) : regex :=
  match rs with
  | [] => Eps
  | [r] => r
  | r :: rs' => Alt r (alt_ rs')
  end.

Definition opt (r : regex) : regex := Repeat 0 (Some 1) true r.
Definition plus (r : regex) : regex := Repeat 1 None true r.
Definition plus_lazy (r : regex) : regex := Repeat 1 None false r.
Definition between (lo hi : nat) (r : regex) : regex := Repeat lo (Some hi) true r.

(** *** What a match is

    [denote ic r s c s' c']: the pattern [r] can consume the text between
    [s] and its suffix [s'], turning the groups [c] into [c'].  The
    relation forgets the order in which the matcher tries the
    alternatives. *)
Inductive iter (P : string -> caps -> string -> caps -> Prop)
          (lo : nat) (hi : option nat)
  : nat -> string -> caps -> string -> caps -> Prop :=
| iter_stop n s c : lo <= n -> iter P lo hi n s c s c
| iter_more n s c s1 c1 s' c' :
    below n hi = true ->
    P s c s1 c1 ->
    String.length s1 < String.length s ->
    iter P lo hi (S n) s1 c1 s' c' ->
    iter P lo hi n s c s' c'.

Fixpoint denote (ic : bool) (r : regex) (s : string) (c : caps)
         (s' : string) (c' : caps) : Prop :=
  match r with
  | Lit a => exists b, s = String b s' /\ lit_matches ic a b = true /\ c' = c
  | Set_ neg items =>
      exists b, s = String b s' /\ set_matches ic neg items b = true /\ c' = c
  | Seq r1 r2 =>
      exists s1 c1, denote ic r1 s c s1 c1 /\ denote ic r2 s1 c1 s' c'
  | Alt r1 r2 => denote ic r1 s c s' c' \/ denote ic r2 s c s' c'
  | Eps => s' = s /\ c' = c
  | Repeat lo hi _ r1 => iter (denote ic r1) lo hi 0 s c s' c'
  | Group i r1 =>
      exists c1, denote ic r1 s c s' c1 /\ c' = set_group i (consumed s s') c1
  | Eol => at_eol s = true /\ s' = s /\ c' = c
  end.

(** The number of capturing groups of a pattern: [len(match.groups())]. *)
Fixpoint ngroups (r : regex) : nat :=
  match r with
  | Seq r1 r2 | Alt r1 r2 => Nat.max (ngroups r1) (ngroups r2)
  | Repeat _ _ _ r1 => ngroups r1
  | Group i r1 => Nat.max i (ngroups r1)
  | _ => 0
  end.

(** *** Repetition of one character set, by recursion on the text

    [P] tells the characters of the set; [n] iterations are done. *)
Section OneSet.
Variable P : ascii -> bool.
Variable lo : nat.
Variable k : cont.
Variable c : caps.

(** Greedy: go on while the characters are in the set, then come back
    until the rest of the pattern accepts. *)
Fixpoint greedy_set (n : nat) (s : string) : option mres :=
  let stop := if (lo <=? n)%nat then k s c else None in
  match s with
  | String b s' =>
      if P b
      then match greedy_set (S n) s' with
           | Some m => Some m
           | None => stop
           end
      else stop
  | EmptyString => stop
  end.

(** Lazy: stop as soon as the rest of the pattern accepts. *)
Fixpoint lazy_set (n : nat) (s : string) : option mres :=
  match (if (lo <=? n)%nat then k s c else None) with
  | Some m => Some m
  | None =>
      match s with
      | String b s' => if P b then lazy_set (S n) s' else None
      | EmptyString => None
      end
  end.
End OneSet.



Fixpoint all_chars (P : ascii -> bool) (s : string) : bool :=
  match s with
  | String b s' => P b && all_chars P s'
  | EmptyString => true
  end.

(** [binds i r]: the group [i] lies on every way through [r]. *)
Fixpoint binds (i : nat) (r : regex) : bool :=
  match r with
  | Seq r1 r2 => binds i r1 || binds i r2
  | Alt r1 r2 => binds i r1 && binds i r2
  | Repeat lo _ _ r1 => (0 <? lo)%nat && binds i r1
  | Group j r1 => (j =? i)%nat || binds i r1
  | _ => false
  end.

(** The last element of a sequence. *)
Fixpoint last_of (r : regex) : regex :=
  match r with
  | Seq _ r2 => last_of r2
  | _ => r
  end.

End Re.

(** ** Exceptions *)

Inductive exn : Type :=
| AttributeError
| TypeError
| ValueError (msg : string).

Inductive result (A : Type) : Type :=
| Ok (a : A)
| Raise (e : exn).

Arguments Ok {A} a.
Arguments Raise {A} e.

Definition bind {A B : Type} (m : result A) (f : A -> result B) : result B :=
  match m with
  | Ok a => f a
  | Raise e => Raise e
  end.

Notation "x <- m ;; f" := (bind m (fun x => f))
  (at level 61, m at next level, right associativity).

(** A method call on the value of [match.group(i)], which is [None] when the
    group took no part in the match. *)
Definition attr {A : Type} (o : option string) (f : string -> A) : result A :=
  match o with
  | Some s => Ok (f s)
  | None => Raise AttributeError
  end.

(** ** memory_extractor.py *)

Module MemoryExtractor.
Import Re.

Definition upper_az : regex := Set_ false [IRange "A" "Z"].
Definition lower_az : regex := Set_ false [IRange "a" "z"].
Definition lower_az_s : regex := Set_ false [IRange "a" "z"; ISpace].
Definition alpha_s : regex := Set_ false [IRange "a" "z"; IRange "A" "Z"; ISpace].
Definition space : regex := Set_ false [ISpace].
Definition digit : regex := Set_ false [IDigit].

(** [[A-Z][a-z]+] and [[A-Z][a-zA-Z\s]+] *)
Definition cap_word : regex := Seq upper_az (plus lower_az).
Definition cap_phrase : regex := Seq upper_az (plus alpha_s).

Definition name_patterns : list regex :=
  [ Seq (lit_ "my name is ") (Group 1 cap_word);
    Seq (lit_ "i'm ") (Group 1 cap_word);
    Seq (lit_ "i am ") (Group 1 cap_word);
    Seq (lit_ "name is ") (Group 1 cap_word) ].

Definition location_patterns : list regex :=
  [ Seq (lit_ "from ") (Group 1 cap_phrase);
    Seq (lit_ "live in ") (Group 1 cap_phrase);
    seq_ [lit_ "in "; Group 1 cap_phrase; Lit ","] ].

(** [PREFIX(?:a |an )?([a-z\s]+) (?:at|for) ([A-Z][a-zA-Z\s]+)] *)
Definition job_pattern (prefix : string) : regex :=
  seq_ [ lit_ prefix;
         opt (Alt (lit_ "a ") (lit_ "an "));
         Group 1 (plus lower_az_s);
         Lit " ";
         Alt (lit_ "at") (lit_ "for");
         Lit " ";
         Group 2 cap_phrase ].

Definition job_patterns : list regex :=
  [ job_pattern "work as "; job_pattern "i'm "; job_pattern "i am " ].

(** [[A-Z][a-z]+\s\d{1,2}(?:st|nd|rd|th)?,?\s\d{4}] *)
Definition date : regex :=
  seq_ [ upper_az; plus lower_az; space;
         between 1 2 digit;
         opt (alt_ [lit_ "st"; lit_ "nd"; lit_ "rd"; lit_ "th"]);
         opt (Lit ",");
         space;
         between 4 4 digit ].

Definition birthday_patterns : list regex :=
  [ seq_ [lit_ "birthday is "; opt (lit_ "on "); Group 1 date];
    seq_ [lit_ "born "; opt (lit_ "on "); Group 1 date] ].

Definition age_patterns : list regex :=
  [ Seq (lit_ "turning ") (Group 1 (plus digit));
    Seq (lit_ "i'm ") (Group 1 (plus digit));
    Seq (lit_ "i am ") (Group 1 (plus digit));
    Seq (lit_ "age of ") (Group 1 (plus digit)) ].

(** [allergic to ([^.]+)] *)
Definition allergy_pattern : regex :=
  Seq (lit_ "allergic to ") (Group 1 (plus (Set_ true [IChar "."]))).

(** The working dictionary [facts]. *)
Record facts : Type := MkFacts {
  name : option string;
  city : option string;
  location : option string;
  job_role : option string;
  company : option string;
  birthday : option string;
  age : option Z;
  allergies : list string;
  dietary_preferences : list string;
  other_facts : list string
}.

Definition facts0 : facts :=
  MkFacts None None None None None None None [] [] [].

Definition set_name (f : facts) (v : option string) : facts :=
  MkFacts v (city f) (location f) (job_role f) (company f) (birthday f)
          (age f) (allergies f) (dietary_preferences f) (other_facts f).
Definition set_city (f : facts) (v : option string) : facts :=
  MkFacts (name f) v (location f) (job_role f) (company f) (birthday f)
          (age f) (allergies f) (dietary_preferences f) (other_facts f).
Definition set_location (f : facts) (v : option string) : facts :=
  MkFacts (name f) (city f) v (job_role f) (company f) (birthday f)
          (age f) (allergies f) (dietary_preferences f) (other_facts f).
Definition set_job_role (f : facts) (v : option string) : facts :=
  MkFacts (name f) (city f) (location f) v (company f) (birthday f)
          (age f) (allergies f) (dietary_preferences f) (other_facts f).
Definition set_company (f : facts) (v : option string) : facts :=
  MkFacts (name f) (city f) (location f) (job_role f) v (birthday f)
          (age f) (allergies f) (dietary_preferences f) (other_facts f).
Definition set_birthday (f : facts) (v : option string) : facts :=
  MkFacts (name f) (city f) (location f) (job_role f) (company f) v
          (age f) (allergies f) (dietary_preferences f) (other_facts f).
Definition set_age (f : facts) (v : option Z) : facts :=
  MkFacts (name f) (city f) (location f) (job_role f) (company f) (birthday f)
          v (allergies f) (dietary_preferences f) (other_facts f).
Definition set_allergies (f : facts) (v : list string) : facts :=
  MkFacts (name f) (city f) (location f) (job_role f) (company f) (birthday f)
          (age f) v (dietary_preferences f) (other_facts f).
Definition set_dietary_preferences (f : facts) (v : list string) : facts :=
  MkFacts (name f) (city f) (location f) (job_role f) (company f) (birthday f)
          (age f) (allergies f) v (other_facts f).

(** Truth value of an optional string and of an optional integer. *)
Definition truthy_str (v : option string) : bool :=
  match v with
  | None | Some EmptyString => false
  | Some _ => true
  end.

Definition truthy_int (v : option Z) : bool :=
  match v with
  | None => false
  | Some z => negb (Z.eqb z 0)
  end.

Definition mgroup (m : match_object) (i : nat) : option string :=
  group (m_groups m) i.

(** [int(s)] on a string of decimal digits.  The interpreter refuses more
    than [int_max_str_digits] digits with a ValueError. *)
Definition int_max_str_digits : nat := 4300.

Fixpoint digits_value (acc : Z) (s : string) : option Z :=
  match s with
  | EmptyString => Some acc
  | String c s' =>
      if PyStr.isdigit c
      then digits_value (10 * acc + Z.of_nat (PyStr.ord c - 48)) s'
      else None
  end.

Definition int_ (o : option string) : result Z :=
  match o with
  | None => Raise TypeError
  | Some EmptyString => Raise (ValueError "invalid literal for int()")
  | Some s =>
      if (int_max_str_digits <? String.length s)%nat
      then Raise (ValueError "Exceeds the limit for integer string conversion")
      else match digits_value 0 s with
           | Some z => Ok z
           | None => Raise (ValueError "invalid literal for int()")
           end
  end.

(** The five [for pattern in ...] loops of one message. *)
Fixpoint name_loop (ps : list regex) (message : string) (f : facts) : facts :=
  match ps with
  | [] => f
  | pattern :: ps' =>
      match search true pattern message with
      | Some m => set_name f (mgroup m 1)
      | None => name_loop ps' message f
      end
  end.

Definition false_positive (loc : string) : bool :=
  PyStr.mem loc ["The"; "A"; "An"].

Fixpoint location_loop (ps : list regex) (message : string) (f : facts)
  : result facts :=
  match ps with
  | [] => Ok f
  | pattern :: ps' =>
      match search true pattern message with
      | Some m =>
          loc <- attr (mgroup m 1) PyStr.strip ;;
          if negb (false_positive loc) && (2 <? String.length loc)%nat
          then Ok (set_location (set_city f (Some loc)) (Some loc))
          else location_loop ps' message f
      | None => location_loop ps' message f
      end
  end.

Fixpoint job_loop (ps : list regex) (message : string) (f : facts)
  : result facts :=
  match ps with
  | [] => Ok f
  | pattern :: ps' =>
      match search true pattern message with
      | Some m =>
          role <- attr (mgroup m 1) PyStr.strip ;;
          let f := set_job_role f (Some role) in
          if (1 <? ngroups pattern)%nat
          then comp <- attr (mgroup m 2) PyStr.strip ;;
               Ok (set_company f (Some comp))
          else Ok f
      | None => job_loop ps' message f
      end
  end.

Fixpoint birthday_loop (ps : list regex) (message : string) (f : facts)
  : result facts :=
  match ps with
  | [] => Ok f
  | pattern :: ps' =>
      match search true pattern message with
      | Some m =>
          d <- attr (mgroup m 1) PyStr.strip ;;
          Ok (set_birthday f (Some d))
      | None => birthday_loop ps' message f
      end
  end.

Fixpoint age_loop (ps : list regex) (message : string) (f : facts) : facts :=
  match ps with
  | [] => f
  | pattern :: ps' =>
      match search true pattern message with
      | Some m =>
          match int_ (mgroup m 1) with
          | Ok z => set_age f (Some z)
          | Raise _ => f           (* except: pass *)
          end
      | None => age_loop ps' message f
      end
  end.

Definition allergy_step (message_lower : string) (f : facts) : result facts :=
  if PyStr.contains "allergic" message_lower
  then match search false allergy_pattern message_lower with
       | Some m =>
           parts <- attr (mgroup m 1) (PyStr.split "and") ;;
           Ok (set_allergies f (allergies f ++ map PyStr.strip parts))
       | None => Ok f
       end
  else Ok f.

Definition dietary_step (message_lower : string) (f : facts) : facts :=
  if PyStr.contains "vegetarian" message_lower
     || PyStr.contains "vegan" message_lower
  then
    let f := if PyStr.contains "vegetarian" message_lower
             then set_dietary_preferences f (dietary_preferences f ++ ["vegetarian"])
             else f in
    if PyStr.contains "vegan" message_lower
    then set_dietary_preferences f (dietary_preferences f ++ ["vegan"])
    else f
  else f.

(** The body of [for message in messages]. *)
Definition facts_step (f : facts) (message : string) : result facts :=
  let message_lower := PyStr.lower message in
  let f := if negb (truthy_str (name f))
           then name_loop name_patterns message f else f in
  f <- (if negb (truthy_str (city f))
        then location_loop location_patterns message f else Ok f) ;;
  f <- (if negb (truthy_str (job_role f))
        then job_loop job_patterns message f else Ok f) ;;
  f <- (if negb (truthy_str (birthday f))
        then birthday_loop birthday_patterns message f else Ok f) ;;
  let f := if negb (truthy_int (age f))
           then age_loop age_patterns message f else f in
  f <- allergy_step message_lower f ;;
  Ok (dietary_step message_lower f).

Fixpoint facts_scan (f : facts) (messages : list string) : result facts :=
  match messages with
  | [] => Ok f
  | message :: rest => f' <- facts_step f message ;; facts_scan f' rest
  end.

(** Values of the returned dictionary. *)
Inductive value : Type :=
| VNone
| VStr (s : string)
| VInt (z : Z)
| VList (l : list string).

Definition of_str (o : option string) : value :=
  match o with Some s => VStr s | None => VNone end.
Definition of_int (o : option Z) : value :=
  match o with Some z => VInt z | None => VNone end.

Definition truthy (v : value) : bool :=
  match v with
  | VNone => false
  | VStr s => negb (String.eqb s "")
  | VInt z => negb (Z.eqb z 0)
  | VList l => negb (Nat.eqb (List.length l) 0)
  end.

Definition is_nonempty_list (v : value) : bool :=
  match v with
  | VList l => (0 <? List.length l)%nat
  | _ => false
  end.

Definition dict : Type := list (string * value).

Definition items (f : facts) : dict :=
  [ ("name", of_str (name f));
    ("city", of_str (city f));
    ("location", of_str (location f));
    ("job_role", of_str (job_role f));
    ("company", of_str (company f));
    ("birthday", of_str (birthday f));
    ("age", of_int (age f));
    ("allergies", VList (allergies f));
    ("dietary_preferences", VList (dietary_preferences f));
    ("other_facts", VList (other_facts f)) ].

(** [{k: v for k, v in facts.items() if v or (isinstance(v, list) and len(v) > 0)}] *)
Definition clean_up (f : facts) : dict :=
  filter (fun kv => truthy (snd kv) || is_nonempty_list (snd kv)) (items f).

Definition extract_personal_facts (messages : list string) : result dict :=
  f <- facts_scan facts0 messages ;;
  Ok (clean_up f).

Fixpoint get (d : dict) (key : string) : option value :=
  match d with
  | [] => None
  | (k, v) :: d' => if String.eqb k key then Some v else get d' key
  end.

(** *** Preferences *)

Definition like_indicators : list string :=
  ["love"; "enjoy"; "like"; "prefer"; "favorite"; "favourite"; "adore"; "appreciate"].
Definition dislike_indicators : list string :=
  ["hate"; "dislike"; "don't like"; "can't stand"; "detest"; "loathe"].

Definition not_terminator : regex := Set_ true [IChar "."; IChar "!"; IChar "?"].

(** [(?:\s+(?:the|a|an))?\s+([^.!?]+?)(?:\.|!|$)] *)
Definition pref_tail : regex :=
  seq_ [ opt (Seq (plus space) (alt_ [lit_ "the"; lit_ "a"; lit_ "an"]));
         plus space;
         Group 1 (plus_lazy not_terminator);
         alt_ [Lit "."; Lit "!"; Eol] ].

(** [rf"{indicator}(?:\s+(?:the|a|an))?\s+([^.!?]+?)(?:\.|!|$)"] *)
Definition pref_pattern (indicator : string) : regex :=
  Seq (lit_ indicator) pref_tail.

(** [\s+(especially|like|such as)] *)
Definition filler_pattern : regex :=
  Seq (plus space) (Group 1 (alt_ [lit_ "especially"; lit_ "like"; lit_ "such as"])).

(** [favorite(?:ite)? (?:is|are)?\s+([^.!?]+?)(?:\.|!|$)] *)
Definition favorite_pattern : regex :=
  seq_ [ lit_ "favorite";
         opt (lit_ "ite");
         Lit " ";
         opt (Alt (lit_ "is") (lit_ "are"));
         plus space;
         Group 1 (plus_lazy not_terminator);
         alt_ [Lit "."; Lit "!"; Eol] ].

Record preferences : Type := MkPrefs {
  likes : list string;
  dislikes : list string;
  favorites : list string
}.

(** [if len(item) > 2 and item not in l: l.append(item)] *)
Definition add_new (item : string) (l : list string) : list string :=
  if (2 <? String.length item)%nat && negb (PyStr.mem item l)
  then l ++ [item] else l.

Fixpoint likes_loop (inds : list string) (message_lower : string)
         (l : list string) : result (list string) :=
  match inds with
  | [] => Ok l
  | indicator :: inds' =>
      if PyStr.contains indicator message_lower
      then match search false (pref_pattern indicator) message_lower with
           | Some m =>
               liked_item <- attr (mgroup m 1) PyStr.strip ;;
               let liked_item := sub filler_pattern "" liked_item in
               likes_loop inds' message_lower (add_new liked_item l)
           | None => likes_loop inds' message_lower l
           end
      else likes_loop inds' message_lower l
  end.

Fixpoint dislikes_loop (inds : list string) (message_lower : string)
         (l : list string) : result (list string) :=
  match inds with
  | [] => Ok l
  | indicator :: inds' =>
      if PyStr.contains indicator message_lower
      then match search false (pref_pattern indicator) message_lower with
           | Some m =>
               disliked_item <- attr (mgroup m 1) PyStr.strip ;;
               dislikes_loop inds' message_lower (add_new disliked_item l)
           | None => dislikes_loop inds' message_lower l
           end
      else dislikes_loop inds' message_lower l
  end.

Definition favorites_step (message_lower : string) (l : list string)
  : result (list string) :=
  if PyStr.contains "favorite" message_lower
     || PyStr.contains "favourite" message_lower
  then match search false favorite_pattern message_lower with
       | Some m =>
           favorite_item <- attr (mgroup m 1) PyStr.strip ;;
           Ok (if (2 <? String.length favorite_item)%nat
               then l ++ [favorite_item] else l)
       | None => Ok l
       end
  else Ok l.

Definition prefs_step (p : preferences) (message : string) : result preferences :=
  let message_lower := PyStr.lower message in
  l <- likes_loop like_indicators message_lower (likes p) ;;
  d <- dislikes_loop dislike_indicators message_lower (dislikes p) ;;
  f <- favorites_step message_lower (favorites p) ;;
  Ok (MkPrefs l d f).

Fixpoint prefs_scan (p : preferences) (messages : list string) : result preferences :=
  match messages with
  | [] => Ok p
  | message :: rest => p' <- prefs_step p message ;; prefs_scan p' rest
  end.

Definition extract_preferences (messages : list string) : result preferences :=
  prefs_scan (MkPrefs [] [] []) messages.

(** *** Emotions *)

Definition emotion_keywords : list (string * list string) :=
  [ ("happy", ["happy"; "excited"; "proud"; "grateful"; "joy"; "joyful"; "thrilled"; "delighted"]);
    ("sad", ["sad"; "miss"; "depressed"; "down"; "unhappy"; "melancholy"]);
    ("anxious", ["anxious"; "worried"; "stressed"; "nervous"; "fear"; "afraid"; "concerned"]);
    ("frustrated", ["frustrated"; "annoyed"; "irritated"; "angry"; "mad"; "upset"]);
    ("calm", ["calm"; "peaceful"; "relaxed"; "serene"; "tranquil"; "content"]) ].

(** A [Counter]: keys in the order of their first increment. *)
Definition counter : Type := list (string * nat).

Fixpoint count (c : counter) (key : string) : nat :=
  match c with
  | [] => 0
  | (k, n) :: c' => if String.eqb k key then n else count c' key
  end.

(** [c[key] += 1] *)
Fixpoint incr (c : counter) (key : string) : counter :=
  match c with
  | [] => [(key, 1)]
  | (k, n) :: c' =>
      if String.eqb k key then (k, S n) :: c' else (k, n) :: incr c' key
  end.

(** [for keyword in keywords: if keyword in message_lower: ...; break] *)
Fixpoint keyword_loop (keywords : list string) (message_lower emotion : string)
         (c : counter) : counter :=
  match keywords with
  | [] => c
  | keyword :: keywords' =>
      if PyStr.contains keyword message_lower
      then incr c emotion
      else keyword_loop keywords' message_lower emotion c
  end.

Fixpoint emotion_loop (table : list (string * list string))
         (message_lower : string) (c : counter) : counter :=
  match table with
  | [] => c
  | (emotion, keywords) :: table' =>
      emotion_loop table' message_lower
                   (keyword_loop keywords message_lower emotion c)
  end.

Definition emotions_step (c : counter) (message : string) : counter :=
  emotion_loop emotion_keywords (PyStr.lower message) c.

Definition emotions_scan (messages : list string) : counter :=
  fold_left emotions_step messages [].

(** [max(items, key=itemgetter(1))]: the first item of greatest count. *)
Fixpoint max_item (best : string * nat) (l : counter) : string * nat :=
  match l with
  | [] => best
  | x :: l' => max_item (if (snd best <? snd x)%nat then x else best) l'
  end.

(** [Counter.most_common(1)] *)
Definition most_common_1 (c : counter) : list (string * nat) :=
  match c with
  | [] => []
  | x :: l => [max_item x l]
  end.

Record emotional_patterns : Type := MkEmotions {
  emotion_counts : counter;
  dominant_emotion : option string;
  total_emotional_messages : nat
}.

Definition sum_values (c : counter) : nat :=
  fold_left Nat.add (map snd c) 0.

Definition extract_emotions (messages : list string) : emotional_patterns :=
  let c := emotions_scan messages in
  let dominant :=
    match c with
    | [] => None
    | _ => match most_common_1 c with
           | x :: _ => Some (fst x)
           | [] => None
           end
    end in
  MkEmotions c dominant (sum_values c).

Record memory : Type := MkMemory {
  personal_facts : dict;
  preferences_of : preferences;
  emotional_patterns_of : emotional_patterns
}.

Definition extract_all (messages : list string) : result memory :=
  f <- extract_personal_facts messages ;;
  p <- extract_preferences messages ;;
  Ok (MkMemory f p (extract_emotions messages)).

End MemoryExtractor.

(** ** personality_engine.py *)

Module PersonalityEngine.
Import MemoryExtractor.
Local Open Scope string_scope.

(** The engine holds [memory or {}]; [None] stands for a dictionary
    without the key [personal_facts]. *)
Definition engine : Type := option dict.

Definition get_user_name (self : engine) : string :=
  match self with
  | Some facts =>
      match get facts "name" with
      | Some (VStr n) => if String.eqb n "" then "there" else n
      | _ => "there"
      end
  | None => "there"
  end.

Definition nl2 : string := String "010" (String "010" EmptyString).

Definition calm_mentor_style (self : engine) (base_response : string) : string :=
  let opening := "I understand where you're coming from, and I'd like to share some perspective." in
  let transformed := opening ++ nl2 ++ base_response in
  let closing := "Remember, progress takes time, and you're doing great." in
  let transformed := transformed ++ nl2 ++ closing in
  let transformed := PyStr.replace "I think" "I believe" transformed in
  let transformed := PyStr.replace "You should break" "You might consider breaking" transformed in
  let transformed := PyStr.replace "You should take" "You might consider taking" transformed in
  let transformed := PyStr.replace "You should create" "You might consider creating" transformed in
  let transformed := PyStr.replace "You should" "You might consider" transformed in
  let transformed := PyStr.replace "You need to" "It would be helpful to" transformed in
  transformed.

Definition witty_friend_style (self : engine) (base_response : string) : string :=
  let user_name := get_user_name self in
  let opening := "Hey " ++ user_name ++ "! So here's the thing..." in
  let transformed := opening ++ nl2 ++ base_response in
  let transformed := PyStr.replace "I understand" "I totally get it" transformed in
  let transformed := PyStr.replace "You should" "You could totally" transformed in
  let transformed := PyStr.replace "It is important" "Here's the deal" transformed in
  let transformed := PyStr.replace "I recommend" "My two cents?" transformed in
  let closing := "Hope that helps! You've got this!" in
  transformed ++ nl2 ++ closing.

Definition therapist_style (self : engine) (base_response : string) : string :=
  let user_name := get_user_name self in
  let opening := "I hear you, " ++ user_name ++ ". Let's explore this together." in
  let transformed := opening ++ nl2 ++ base_response in
  let transformed := PyStr.replace "I think" "It seems like" transformed in
  let transformed := PyStr.replace "You should" "You might find it helpful to" transformed in
  let transformed := PyStr.replace "You need to" "What would it be like if you" transformed in
  let transformed := transformed ++ nl2 ++ "How does that feel to you?" in
  let closing := "There's no right or wrong answer here. What matters is what feels authentic to you." in
  transformed ++ nl2 ++ closing.

Definition normalize (style : string) : string :=
  PyStr.replace " " "_" (PyStr.lower style).

Definition rewrite_response (self : engine) (base_response style : string)
  : result string :=
  let style := normalize style in
  if String.eqb style "calm_mentor" then Ok (calm_mentor_style self base_response)
  else if String.eqb style "witty_friend" then Ok (witty_friend_style self base_response)
  else if String.eqb style "therapist" then Ok (therapist_style self base_response)
  else Raise (ValueError ("Unknown style: " ++ style
                ++ ". Choose from: 'calm_mentor', 'witty_friend', 'therapist'")).

(** The dictionary literal of [demonstrate_improvement], in the order of
    its keys. *)
Definition demonstrate_improvement (self : engine) (base_response : string)
  : list (string * string) :=
  [ ("before", base_response);
    ("calm_mentor", calm_mentor_style self base_response);
    ("witty_friend", witty_friend_style self base_response);
    ("therapist", therapist_style self base_response) ].

End PersonalityEngine.

(** ** Vocabulary of the statements *)

Module Spec.
Import MemoryExtractor.

(** Some keyword of the list occurs in the lowercased message. *)
Definition mentions (keywords : list string) (message : string) : bool :=
  existsb (fun keyword => PyStr.contains keyword (PyStr.lower message)) keywords.

Definition categories : list string := map fst emotion_keywords.

(** The sum of the counts of all categories. *)
Definition sum_of_counts (c : counter) : nat :=
  list_sum (map (count c) categories).

(** The first element of a list for which [f] gives a value. *)
Fixpoint first_some {A B : Type} (f : A -> option B) (l : list A) : option B :=
  match l with
  | [] => None
  | x :: l' =>
      match f x with
      | Some y => Some y
      | None => first_some f l'
      end
  end.

(** The match of the first pattern of the list, in order, that is found in
    the message; the flag IGNORECASE is set. *)
Definition first_match (patterns : list Re.regex) (message : string)
  : option Re.match_object :=
  first_some (fun pattern => Re.search true pattern message) patterns.

(** What one message gives for each scalar category. *)
Definition name_of (message : string) : option string :=
  match first_match name_patterns message with
  | Some m => mgroup m 1
  | None => None
  end.

Definition birthday_of (message : string) : option string :=
  match first_match birthday_patterns message with
  | Some m => option_map PyStr.strip (mgroup m 1)
  | None => None
  end.

(** The trimmed capture of the first location pattern that matches, without
    the filter on articles and short words. *)
Definition location_capture (message : string) : option string :=
  match first_match location_patterns message with
  | Some m => option_map PyStr.strip (mgroup m 1)
  | None => None
  end.

Definition accepted_location (loc : string) : bool :=
  negb (false_positive loc) && (2 <? String.length loc)%nat.

(** The trimmed capture of the first location pattern, in order, whose
    match passes the filter. *)
Definition city_of (message : string) : option string :=
  first_some (fun pattern =>
                match Re.search true pattern message with
                | Some m =>
                    match option_map PyStr.strip (mgroup m 1) with
                    | Some loc => if accepted_location loc then Some loc else None
                    | None => None
                    end
                | None => None
                end) location_patterns.

(** Role and company of the first job pattern that matches. *)
Definition job_of (message : string) : option (string * string) :=
  match first_match job_patterns message with
  | Some m =>
      match mgroup m 1, mgroup m 2 with
      | Some role, Some comp => Some (PyStr.strip role, PyStr.strip comp)
      | _, _ => None
      end
  | None => None
  end.

(** The number of the first age pattern that matches, when [int] accepts
    it. *)
Definition age_of (message : string) : option Z :=
  match first_match age_patterns message with
  | Some m =>
      match int_ (mgroup m 1) with
      | Ok z => Some z
      | Raise _ => None
      end
  | None => None
  end.

(** A job whose role is not the empty string. *)
Definition nonblank (p : string * string) : bool := negb (String.eqb (fst p) "").

(** The scalar keys whose presence in the result means the field counted
    as true when it was set. *)
Definition sticky_keys : list string :=
  ["name"; "city"; "location"; "job_role"; "birthday"; "age"].

(** The rule of a scalar field: a value that counts as true is kept,
    otherwise a new value, if there is one, takes its place. *)
Definition keep {A : Type} (set : bool) (old new : option A) : option A :=
  if set then old
  else match new with
       | Some v => Some v
       | None => old
       end.

(** The segments a message adds to the allergies. *)
Definition allergies_of (message : string) : list string :=
  let message_lower := PyStr.lower message in
  if PyStr.contains "allergic" message_lower
  then match Re.search false allergy_pattern message_lower with
       | Some m =>
           match mgroup m 1 with
           | Some g => map PyStr.strip (PyStr.split "and" g)
           | None => []
           end
       | None => []
       end
  else [].





(** *** Phrases that the preference patterns hand over unchanged *)

(** The characters that [[^.!?]] and [\s] accept. *)
Definition not_terminator_char : ascii -> bool :=
  Re.set_matches false true [Re.IChar "."; Re.IChar "!"; Re.IChar "?"].
Definition space_char : ascii -> bool :=
  Re.set_matches false false [Re.ISpace].

(** None of ".", "!" and "?" occurs in the text. *)
Definition no_terminator (s : string) : bool :=
  negb (PyStr.contains "." s) && negb (PyStr.contains "!" s)
  && negb (PyStr.contains "?" s).

Definition next_is_space (s : string) : bool :=
  match s with
  | String b _ => PyStr.isspace b
  | EmptyString => false
  end.

(** The text starts with "the", "a" or "an" and white space. *)
Definition article_then_space (s : string) : bool :=
  existsb (fun article =>
             PyStr.startswith article s
             && next_is_space (PyStr.drop (String.length article) s))
          ["the"; "a"; "an"].

(** Somewhere in the text white space is followed by "especially", "like"
    or "such as". *)
Fixpoint has_filler (s : string) : bool :=
  match s with
  | EmptyString => false
  | String b s' =>
      (PyStr.isspace b
       && (PyStr.startswith "especially" s' || PyStr.startswith "like" s'
           || PyStr.startswith "such as" s'))
      || has_filler s'
  end.

(** A phrase of more than 2 characters, without ".", "!" or "?", without
    white space at either end, without a leading article and without a
    filler word. *)
Definition plain_phrase (x : string) : Prop :=
  2 < String.length x
  /\ no_terminator x = true
  /\ PyStr.strip x = x
  /\ article_then_space x = false
  /\ has_filler x = false.

(** Parts of the preference patterns. *)
Definition articles : Re.regex :=
  Re.alt_ [Re.lit_ "the"; Re.lit_ "a"; Re.lit_ "an"].
Definition terminator : Re.regex := Re.alt_ [Re.Lit "."; Re.Lit "!"; Re.Eol].
Definition fillers : Re.regex :=
  Re.Group 1 (Re.alt_ [Re.lit_ "especially"; Re.lit_ "like"; Re.lit_ "such as"]).

(** Lowercase, and an underscore for a space. *)
Definition norm_char (ch : ascii) : ascii :=
  if Ascii.eqb " " (PyStr.lower_char ch) then "_"%char else PyStr.lower_char ch.

Fixpoint map_string (f : ascii -> ascii) (s : string) : string :=
  match s with
  | EmptyString => EmptyString
  | String ch s' => String (f ch) (map_string f s')
  end.

(** The first opening and closing of the calm mentor. *)
Definition calm_opening : string :=
  "I understand where you're coming from, and I'd like to share some perspective.".
Definition calm_closing : string :=
  "Remember, progress takes time, and you're doing great.".

(** *** Further vocabulary *)

(** The keys of the working dictionary of [extract_personal_facts], in the
    order in which it is built. *)
Definition fact_keys : list string :=
  ["name"; "city"; "location"; "job_role"; "company"; "birthday"; "age";
   "allergies"; "dietary_preferences"; "other_facts"].

Definition present (d : dict) (key : string) : bool :=
  match get d key with
  | Some _ => true
  | None => false
  end.

(** What one message adds to the dietary preferences. *)
Definition diet_of (message : string) : list string :=
  let message_lower := PyStr.lower message in
  (if PyStr.contains "vegetarian" message_lower then ["vegetarian"] else [])
  ++ (if PyStr.contains "vegan" message_lower then ["vegan"] else []).

(** A phrase that [add_new] accepts: longer than 2 characters. *)
Definition long_phrase (s : string) : Prop := 2 < String.length s.

(** [l'] is [l] with more items after it. *)
Definition extends (l l' : list string) : Prop := exists more, l' = l ++ more.

(** Every key of the counter is a category, with a count of at least 1. *)
Definition counter_ok (c : counter) : Prop :=
  forall y, In y c -> In (fst y) categories /\ 0 < snd y.

(** The character [c] does not occur in [s]. *)
Definition lacks (c : ascii) (s : string) : bool :=
  Re.all_chars (fun x => negb (Ascii.eqb x c)) s.

Definition nl : ascii := "010"%char.

(** The replacements of each style, in the order of the source. *)
Definition calm_subst (text : string) : string :=
  PyStr.replace "You need to" "It would be helpful to"
    (PyStr.replace "You should" "You might consider"
       (PyStr.replace "You should create" "You might consider creating"
          (PyStr.replace "You should take" "You might consider taking"
             (PyStr.replace "You should break" "You might consider breaking"
                (PyStr.replace "I think" "I believe" text))))).

Definition witty_subst (text : string) : string :=
  PyStr.replace "I recommend" "My two cents?"
    (PyStr.replace "It is important" "Here's the deal"
       (PyStr.replace "You should" "You could totally"
          (PyStr.replace "I understand" "I totally get it" text))).

Definition therapist_subst (text : string) : string :=
  PyStr.replace "You need to" "What would it be like if you"
    (PyStr.replace "You should" "You might find it helpful to"
       (PyStr.replace "I think" "It seems like" text)).

(** The first opening, question and closing of the witty friend and of the
    therapist. *)
Definition witty_opening (user_name : string) : string :=
  ("Hey " ++ user_name ++ "! So here's the thing...")%string.
Definition witty_closing : string := "Hope that helps! You've got this!".
Definition therapist_opening (user_name : string) : string :=
  ("I hear you, " ++ user_name ++ ". Let's explore this together.")%string.
Definition therapist_question : string := "How does that feel to you?".
Definition therapist_closing : string :=
  "There's no right or wrong answer here. What matters is what feels authentic to you.".

(** A letter of [A-Za-z]. *)
Definition is_letter (ch : ascii) : bool :=
  let n := nat_of_ascii ch in
  ((65 <=? n) && (n <=? 90) || (97 <=? n) && (n <=? 122))%nat.

(** [d.get(key)] on a dictionary of texts. *)
Fixpoint lookup (d : list (string * string)) (key : string) : option string :=
  match d with
  | [] => None
  | (k, v) :: d' => if String.eqb k key then Some v else lookup d' key
  end.

End Spec.

(** * Properties *)

(** ** Strings *)

Module StrFacts.
Import PyStr.
Local Open Scope string_scope.

Lemma append_nil_r (s : string) : s ++ "" = s.
Proof. induction s; simpl; congruence. Qed.

Lemma append_assoc (a b c : string) : (a ++ b) ++ c = a ++ (b ++ c).
Proof. induction a; simpl; congruence. Qed.

Lemma length_append (a b : string) :
  String.length (a ++ b) = String.length a + String.length b.
Proof. induction a; simpl; congruence. Qed.

Lemma take_append (t s : string) : take (String.length t) (t ++ s) = t.
Proof. induction t; simpl; [destruct s; reflexivity | congruence]. Qed.

Lemma consumed_append (t s : string) : Re.consumed (t ++ s) s = t.
Proof.
  unfold Re.consumed. rewrite length_append.
  replace (String.length t + String.length s - String.length s)
    with (String.length t) by lia.
  apply take_append.
Qed.

Lemma lstrip_nonspace (b : ascii) (t : string) :
  isspace b = false -> lstrip (String b t) = String b t.
Proof. intros H; simpl; now rewrite H. Qed.

Lemma rstrip_nonspace (b : ascii) (t : string) :
  isspace b = false -> exists r, rstrip (String b t) = String b r.
Proof.
  intros H; simpl. destruct (rstrip t).
  - rewrite H; now exists "".
  - eexists; reflexivity.
Qed.

Lemma strip_nonspace (b : ascii) (t : string) :
  isspace b = false -> exists r, strip (String b t) = String b r.
Proof.
  intros H; unfold strip; rewrite lstrip_nonspace by easy.
  now apply rstrip_nonspace.
Qed.


Lemma startswith_prefix_only (p : string) :
  forall x y, String.length p <= String.length x ->
              PyStr.startswith p (x ++ y)%string = PyStr.startswith p x.
Proof.
  induction p as [|a p IH]; intros x y Hl; [reflexivity|].
  destruct x as [|b x]; simpl in Hl; [lia|].
  simpl. rewrite IH by lia. reflexivity.
Qed.

Lemma startswith_self (p r : string) : PyStr.startswith p (p ++ r)%string = true.
Proof. induction p as [|a p IH]; simpl; [reflexivity|]. now rewrite Ascii.eqb_refl. Qed.

Lemma drop_self (p r : string) : PyStr.drop (String.length p) (p ++ r)%string = r.
Proof. induction p as [|a p IH]; simpl; [now destruct r | exact IH]. Qed.

Lemma drop_append_le (n : nat) :
  forall x y, n <= String.length x ->
              PyStr.drop n (x ++ y)%string = (PyStr.drop n x ++ y)%string.
Proof.
  induction n as [|n IH]; intros x y Hl.
  - now destruct x; destruct y.
  - destruct x as [|b x]; simpl in Hl; [lia|]. simpl. apply IH. lia.
Qed.

Lemma length_lstrip (s : string) : String.length (PyStr.lstrip s) <= String.length s.
Proof.
  induction s as [|b s IH]; simpl; [lia|].
  destruct (PyStr.isspace b); simpl; lia.
Qed.

Lemma length_rstrip (s : string) : String.length (PyStr.rstrip s) <= String.length s.
Proof.
  induction s as [|b s IH]; simpl; [lia|].
  destruct (PyStr.rstrip s); [destruct (PyStr.isspace b)|]; simpl in *; lia.
Qed.

Lemma strip_fixed_head (b : ascii) (x : string) :
  PyStr.strip (String b x) = String b x -> PyStr.isspace b = false.
Proof.
  unfold PyStr.strip. cbn [PyStr.lstrip].
  destruct (PyStr.isspace b) eqn:E; [|reflexivity].
  intros H. pose proof (length_rstrip (PyStr.lstrip x)) as H1.
  pose proof (length_lstrip x) as H2. rewrite H in H1. simpl in H1. lia.
Qed.

Lemma lower_append (a b : string) :
  PyStr.lower (a ++ b) = (PyStr.lower a ++ PyStr.lower b)%string.
Proof. induction a as [|ch a IH]; simpl; [reflexivity | now rewrite IH]. Qed.

Lemma mem_In (x : string) (l : list string) : PyStr.mem x l = true <-> In x l.
Proof.
  induction l as [|y l IH]; simpl; [split; [discriminate | tauto]|].
  rewrite orb_true_iff, IH, String.eqb_eq. split; intros [H|H]; auto.
Qed.

End StrFacts.

(** ** The matcher finds only matches *)

Module ReFacts.
Import Re StrFacts.

Section LoopSound.
Variable body : string -> caps -> cont -> option mres.
Variable P : string -> caps -> string -> caps -> Prop.
Variables (lo : nat) (hi : option nat) (greedy : bool) (k : cont).
Hypothesis body_sound :
  forall s c k' res, body s c k' = Some res ->
                     exists s' c', P s c s' c' /\ k' s' c' = Some res.

Lemma loop_sound (fuel n : nat) (s : string) (c : caps) (res : mres) :
  loop body lo hi greedy k fuel n s c = Some res ->
  exists s' c', iter P lo hi n s c s' c' /\ k s' c' = Some res.
Proof.
  revert n s c. induction fuel as [|fuel IH]; intros n s c; simpl.
  - discriminate.
  - assert (Hagain :
      (if below n hi
       then body s c (fun s' c' =>
              if (String.length s' <? String.length s)%nat
              then loop body lo hi greedy k fuel (S n) s' c' else None)
       else None) = Some res ->
      exists s' c', iter P lo hi n s c s' c' /\ k s' c' = Some res).
    { destruct (below n hi) eqn:Hb; [|discriminate].
      intros H. apply body_sound in H. destruct H as (s1 & c1 & HP & H).
      destruct (String.length s1 <? String.length s)%nat eqn:Hlt; [|discriminate].
      apply Nat.ltb_lt in Hlt.
      apply IH in H. destruct H as (s' & c' & Hit & Hk).
      exists s', c'. split; [|exact Hk].
      eapply iter_more; eauto. }
    assert (Hstop :
      (if (lo <=? n)%nat then k s c else None) = Some res ->
      exists s' c', iter P lo hi n s c s' c' /\ k s' c' = Some res).
    { destruct (lo <=? n)%nat eqn:Hle; [|discriminate].
      apply Nat.leb_le in Hle. intros H.
      exists s, c. split; [now apply iter_stop | exact H]. }
    destruct greedy.
    + destruct (if below n hi then _ else None) eqn:E.
      * intros H; inversion H; subst. now apply Hagain.
      * exact Hstop.
    + destruct (if (lo <=? n)%nat then _ else None) eqn:E.
      * intros H; inversion H; subst. now apply Hstop.
      * exact Hagain.
Qed.
End LoopSound.

Theorem rmatch_sound (ic : bool) (r : regex) :
  forall s c k res,
    rmatch ic r s c k = Some res ->
    exists s' c', denote ic r s c s' c' /\ k s' c' = Some res.
Proof.
  induction r as [a|neg items|r1 IH1 r2 IH2|r1 IH1 r2 IH2| |lo hi g r1 IH1|i r1 IH1| ];
    intros s c k res;
    try (change (rmatch ic (Repeat lo hi g r1) s c k)
           with (loop (rmatch ic r1) lo hi g k (S (String.length s)) 0 s c);
         change (denote ic (Repeat lo hi g r1) s c)
           with (iter (denote ic r1) lo hi 0 s c));
    [simpl|simpl|simpl|simpl|simpl| |simpl|simpl].
  - destruct s as [|b s']; [discriminate|].
    destruct (lit_matches ic a b) eqn:E; [|discriminate].
    intros H. exists s', c. split; [|exact H]. now exists b.
  - destruct s as [|b s']; [discriminate|].
    destruct (set_matches ic neg items b) eqn:E; [|discriminate].
    intros H. exists s', c. split; [|exact H]. now exists b.
  - intros H. apply IH1 in H. destruct H as (s1 & c1 & H1 & H).
    apply IH2 in H. destruct H as (s2 & c2 & H2 & H).
    exists s2, c2. split; [|exact H]. now exists s1, c1.
  - destruct (rmatch ic r1 s c k) eqn:E.
    + intros H; inversion H; subst.
      apply IH1 in E. destruct E as (s' & c' & H1 & Hk).
      exists s', c'. split; [now left | exact Hk].
    + intros H. apply IH2 in H. destruct H as (s' & c' & H2 & Hk).
      exists s', c'. split; [now right | exact Hk].
  - intros H. exists s, c. now split.
  - intros H. eapply loop_sound in H; [exact H|]. exact IH1.
  - intros H. apply IH1 in H. destruct H as (s' & c' & H1 & Hk).
    exists s', (set_group i (consumed s s') c'). split; [|exact Hk].
    now exists c'.
  - destruct (at_eol s) eqn:E; [|discriminate].
    intros H. exists s, c. now split.
Qed.

(** A successful search matched at some suffix of the subject. *)
Lemma search_from_sound (ic : bool) (r : regex) (s : string) :
  forall pos m,
    search_from ic r pos s = Some m ->
    exists s0, denote ic r s0 [] (m_rest m) (m_groups m).
Proof.
  induction s as [|ch s IH]; intros pos m; simpl.
  - destruct (rmatch ic r "" [] accept) as [[rest c]|] eqn:E; [|discriminate].
    intros H; inversion H; subst; simpl.
    apply rmatch_sound in E. destruct E as (s' & c' & Hd & Hk).
    inversion Hk; subst. now exists ""%string.
  - destruct (rmatch ic r (String ch s) [] accept) as [[rest c]|] eqn:E.
    + intros H; inversion H; subst; simpl.
      apply rmatch_sound in E. destruct E as (s' & c' & Hd & Hk).
      inversion Hk; subst. now exists (String ch s).
    + apply IH.
Qed.

Lemma search_sound (ic : bool) (r : regex) (s : string) (m : match_object) :
  search ic r s = Some m ->
  exists s0, denote ic r s0 [] (m_rest m) (m_groups m).
Proof. apply search_from_sound. Qed.

(** What a match consumes is a prefix of the text it started from. *)
Lemma iter_suffix (P : string -> caps -> string -> caps -> Prop) lo hi :
  (forall s c s' c', P s c s' c' -> exists t, s = (t ++ s')%string) ->
  forall n s c s' c', iter P lo hi n s c s' c' -> exists t, s = (t ++ s')%string.
Proof.
  intros HP n s c s' c' H. induction H as [n s c Hle|n s c s1 c1 s' c' Hb H1 Hlt Hit IH].
  - now exists ""%string.
  - apply HP in H1. destruct H1 as (t1 & ->). destruct IH as (t2 & ->).
    exists (t1 ++ t2)%string. now rewrite append_assoc.
Qed.

Lemma denote_suffix (ic : bool) (r : regex) :
  forall s c s' c', denote ic r s c s' c' -> exists t, s = (t ++ s')%string.
Proof.
  induction r as [a|neg items|r1 IH1 r2 IH2|r1 IH1 r2 IH2| |lo hi g r1 IH1|i r1 IH1| ];
    intros s c s' c'; simpl.
  - intros (b & -> & _). now exists (String b "").
  - intros (b & -> & _). now exists (String b "").
  - intros (s1 & c1 & H1 & H2). apply IH1 in H1. apply IH2 in H2.
    destruct H1 as (t1 & ->). destruct H2 as (t2 & ->).
    exists (t1 ++ t2)%string. now rewrite append_assoc.
  - intros [H|H]; [now apply IH1 in H | now apply IH2 in H].
  - intros (-> & _). now exists ""%string.
  - apply iter_suffix. exact IH1.
  - intros (c1 & H & _). now apply IH1 in H.
  - intros (_ & -> & _). now exists ""%string.
Qed.

(** A pattern without groups leaves the groups alone. *)
Lemma iter_caps (P : string -> caps -> string -> caps -> Prop) lo hi :
  (forall s c s' c', P s c s' c' -> c' = c) ->
  forall n s c s' c', iter P lo hi n s c s' c' -> c' = c.
Proof.
  intros HP n s c s' c' H. induction H; [reflexivity|].
  apply HP in H0. congruence.
Qed.

(** A group that is set stays set, and a group on every way through the
    pattern is set by every match. *)
Lemma iter_keeps (P : string -> caps -> string -> caps -> Prop) lo hi (i : nat) :
  (forall s c s' c', P s c s' c' -> group c i <> None -> group c' i <> None) ->
  forall n s c s' c',
    iter P lo hi n s c s' c' -> group c i <> None -> group c' i <> None.
Proof.
  intros HP n s c s' c' H. induction H; [easy|].
  intros Hc. apply IHiter. eapply HP; eauto.
Qed.

Lemma group_set_group (i j : nat) (v : string) (c : caps) :
  group (set_group i v c) j = if (i =? j)%nat then Some v else group c j.
Proof. reflexivity. Qed.

Lemma denote_keeps (ic : bool) (r : regex) (i : nat) :
  forall s c s' c',
    denote ic r s c s' c' -> group c i <> None -> group c' i <> None.
Proof.
  induction r as [a|neg items|r1 IH1 r2 IH2|r1 IH1 r2 IH2| |lo hi g r1 IH1|j r1 IH1| ];
    intros s c s' c'; simpl.
  - now intros (b & _ & _ & ->).
  - now intros (b & _ & _ & ->).
  - intros (s1 & c1 & H1 & H2) Hc. eapply IH2; eauto.
  - intros [H|H]; eauto.
  - now intros (_ & ->).
  - apply iter_keeps. exact IH1.
  - intros (c1 & H & ->) Hc. rewrite group_set_group.
    destruct (j =? i)%nat; [discriminate|]. eapply IH1; eauto.
  - now intros (_ & _ & ->).
Qed.

Lemma denote_binds (ic : bool) (r : regex) (i : nat) :
  binds i r = true ->
  forall s c s' c', denote ic r s c s' c' -> group c' i <> None.
Proof.
  induction r as [a|neg items|r1 IH1 r2 IH2|r1 IH1 r2 IH2| |lo hi g r1 IH1|j r1 IH1| ];
    simpl; try discriminate; intros Hb s c s' c'.
  - intros (s1 & c1 & H1 & H2).
    apply orb_true_iff in Hb. destruct Hb as [Hb|Hb].
    + eapply denote_keeps; eauto.
    + eapply IH2; eauto.
  - apply andb_true_iff in Hb. destruct Hb as [Hb1 Hb2].
    intros [H|H]; eauto.
  - apply andb_true_iff in Hb. destruct Hb as [Hlo Hb].
    apply Nat.ltb_lt in Hlo. intros H.
    inversion H as [? ? ? Hle|? ? ? s1 c1 ? ? _ H1 _ Hit]; subst; [lia|].
    eapply iter_keeps; [apply denote_keeps | exact Hit | eapply IH1; eauto].
  - intros (c1 & H & ->). rewrite group_set_group.
    destruct (j =? i)%nat eqn:E; [discriminate|].
    simpl in Hb. eapply IH1; eauto.
Qed.

Lemma search_binds (ic : bool) (r : regex) (i : nat) (s : string) (m : match_object) :
  binds i r = true ->
  search ic r s = Some m ->
  exists v, group (m_groups m) i = Some v.
Proof.
  intros Hb H. apply search_sound in H. destruct H as (s0 & H).
  apply (denote_binds _ _ _ Hb) in H.
  destruct (group (m_groups m) i) as [v|]; [now exists v | congruence].
Qed.

(** When a sequence ends with a group, the group holds what its body
    consumed at the end of the match. *)
Lemma denote_last (ic : bool) (r : regex) (i : nat) (body : regex) :
  last_of r = Group i body ->
  forall s c s' c',
    denote ic r s c s' c' ->
    exists s1 c1 c2,
      denote ic body s1 c1 s' c2 /\ c' = set_group i (consumed s1 s') c2.
Proof.
  induction r as [a|neg items|r1 IH1 r2 IH2|r1 IH1 r2 IH2| |lo hi g r1 IH1|j r1 IH1| ];
    simpl; try discriminate; intros Hl s c s' c'.
  - intros (s1 & c1 & _ & H2). eapply IH2; eauto.
  - injection Hl as -> ->. intros (c1 & H & ->). now exists s, c, c1.
Qed.

Lemma denote_head_set (ic neg : bool) (items : list item) (rest : regex)
      (s : string) (c : caps) (s' : string) (c' : caps) :
  denote ic (Seq (Set_ neg items) rest) s c s' c' ->
  exists b t, consumed s s' = String b t /\ set_matches ic neg items b = true.
Proof.
  simpl. intros (s1 & c1 & (b & -> & Hb & _) & H).
  apply denote_suffix in H. destruct H as (t & ->).
  exists b, t. split; [|exact Hb].
  change (String b (t ++ s')) with (String b t ++ s')%string.
  apply consumed_append.
Qed.

Lemma upper_az_not_space (ic : bool) (b : ascii) :
  set_matches ic false [IRange "A" "Z"] b = true -> PyStr.isspace b = false.
Proof.
  destruct ic; destruct b as [[] [] [] [] [] [] [] []];
    vm_compute; intros H; try reflexivity; discriminate H.
Qed.

End ReFacts.

(** ** Emotions *)

Module EmotionFacts.
Import MemoryExtractor Spec.

Lemma count_incr (c : counter) (e k : string) :
  count (incr c e) k = if String.eqb e k then S (count c k) else count c k.
Proof.
  induction c as [|[k0 n] c IH]; simpl.
  - destruct (String.eqb e k); reflexivity.
  - destruct (String.eqb k0 e) eqn:E0; simpl.
    + apply String.eqb_eq in E0; subst k0.
      destruct (String.eqb e k); reflexivity.
    + destruct (String.eqb k0 k) eqn:E1.
      * apply String.eqb_eq in E1; subst k0. now rewrite String.eqb_sym, E0.
      * exact IH.
Qed.

Lemma keyword_loop_spec (keywords : list string) (ml e : string) (c : counter) :
  keyword_loop keywords ml e c
  = if existsb (fun keyword => PyStr.contains keyword ml) keywords
    then incr c e else c.
Proof.
  induction keywords as [|kw kws IH]; simpl; [reflexivity|].
  destruct (PyStr.contains kw ml); simpl; [reflexivity | exact IH].
Qed.

(** One message: each category of the table is incremented when one of
    its keywords occurs, whatever the number of keywords that occur. *)
Lemma emotions_step_unfold (c : counter) (m : string) :
  emotions_step c m =
  let c1 := if mentions (snd (nth 0 emotion_keywords ("", []))) m then incr c "happy" else c in
  let c2 := if mentions (snd (nth 1 emotion_keywords ("", []))) m then incr c1 "sad" else c1 in
  let c3 := if mentions (snd (nth 2 emotion_keywords ("", []))) m then incr c2 "anxious" else c2 in
  let c4 := if mentions (snd (nth 3 emotion_keywords ("", []))) m then incr c3 "frustrated" else c3 in
  if mentions (snd (nth 4 emotion_keywords ("", []))) m then incr c4 "calm" else c4.
Proof.
  unfold emotions_step, emotion_keywords, emotion_loop.
  rewrite !keyword_loop_spec. reflexivity.
Qed.

Lemma emotions_step_count (c : counter) (m e : string) (keywords : list string) :
  In (e, keywords) emotion_keywords ->
  count (emotions_step c m) e = count c e + (if mentions keywords m then 1 else 0).
Proof.
  intros Hin. rewrite emotions_step_unfold. cbv zeta.
  unfold emotion_keywords in Hin |- *. cbn [nth snd].
  simpl in Hin.
  repeat (destruct Hin as [Hin|Hin]; [inversion Hin; subst; clear Hin|]);
    [..|contradiction];
    repeat match goal with
           | |- context [if mentions ?k m then _ else _] =>
               destruct (mentions k m)
           end;
    rewrite ?count_incr; simpl; lia.
Qed.

Lemma emotions_scan_count (messages : list string) (e : string) (keywords : list string) :
  In (e, keywords) emotion_keywords ->
  forall c,
    count (fold_left emotions_step messages c) e
    = count c e + List.length (filter (mentions keywords) messages).
Proof.
  intros Hin. induction messages as [|m ms IH]; intros c; simpl.
  - lia.
  - rewrite IH, (emotions_step_count c m e keywords Hin).
    destruct (mentions keywords m); simpl; lia.
Qed.

Lemma fold_add (l : list nat) (a : nat) : fold_left Nat.add l a = a + list_sum l.
Proof.
  revert a; induction l as [|x l IH]; intros a; simpl; [lia|].
  rewrite IH; lia.
Qed.

Lemma sum_values_incr (c : counter) (e : string) :
  sum_values (incr c e) = S (sum_values c).
Proof.
  unfold sum_values. rewrite !fold_add. simpl.
  induction c as [|[k n] c IH]; simpl; [reflexivity|].
  destruct (String.eqb k e); simpl; lia.
Qed.

Lemma sum_of_counts_incr (c : counter) (e : string) :
  In e categories -> sum_of_counts (incr c e) = S (sum_of_counts c).
Proof.
  unfold sum_of_counts, categories, emotion_keywords. simpl.
  intros Hin.
  repeat (destruct Hin as [Hin|Hin]; [subst e|]); [..|contradiction];
    rewrite !count_incr; simpl; lia.
Qed.

Lemma emotions_step_total (c : counter) (m : string) :
  sum_values c = sum_of_counts c ->
  sum_values (emotions_step c m) = sum_of_counts (emotions_step c m).
Proof.
  intros H. rewrite emotions_step_unfold. cbv zeta.
  repeat match goal with
         | |- context [if mentions ?k m then _ else _] => destruct (mentions k m)
         end;
    rewrite ?sum_values_incr, ?sum_of_counts_incr, ?H;
    try reflexivity;
    unfold categories, emotion_keywords; simpl; tauto.
Qed.

Lemma emotions_scan_total (messages : list string) :
  forall c, sum_values c = sum_of_counts c ->
            sum_values (fold_left emotions_step messages c)
            = sum_of_counts (fold_left emotions_step messages c).
Proof.
  induction messages as [|m ms IH]; intros c H; simpl; [exact H|].
  apply IH. now apply emotions_step_total.
Qed.

(** C6. Each message adds exactly 1 to the counter of every category of
    which it contains a keyword (as a substring of the lowercased
    message) and nothing to the others, so a category's count is the
    number of messages mentioning it; total_emotional_messages is the sum
    of the counts of all categories; a message with a "happy" and an
    "anxious" keyword counts 1 for each and 2 in the total. *)
Theorem emotion_counts_per_message
        (messages : list string) (message e : string) (keywords : list string) :
  In (e, keywords) emotion_keywords ->
  count (emotion_counts (extract_emotions (messages ++ [message]))) e
  = count (emotion_counts (extract_emotions messages)) e
    + (if mentions keywords message then 1 else 0)
  /\ count (emotion_counts (extract_emotions messages)) e
     = List.length (filter (mentions keywords) messages)
  /\ total_emotional_messages (extract_emotions messages)
     = sum_of_counts (emotion_counts (extract_emotions messages))
  /\ (let r := extract_emotions ["I am happy but anxious about it"] in
      count (emotion_counts r) "happy" = 1
      /\ count (emotion_counts r) "anxious" = 1
      /\ total_emotional_messages r = 2).
Proof.
  intros Hin. unfold extract_emotions, emotions_scan; cbn [emotion_counts total_emotional_messages].
  repeat split.
  - rewrite fold_left_app. simpl. now apply emotions_step_count.
  - now rewrite (emotions_scan_count messages e keywords Hin).
  - now apply emotions_scan_total.
Qed.

Lemma emotion_counts_per_message_witness :
  In ("sad", ["sad"; "miss"; "depressed"; "down"; "unhappy"; "melancholy"]) emotion_keywords
  /\ count (emotion_counts (extract_emotions (["so happy"; "I miss you, sadly"] ++ ["feeling down"]))) "sad"
     = count (emotion_counts (extract_emotions ["so happy"; "I miss you, sadly"])) "sad" + 1.
Proof.
  split.
  - unfold emotion_keywords; simpl; tauto.
  - apply (emotion_counts_per_message ["so happy"; "I miss you, sadly"] "feeling down"
             "sad" ["sad"; "miss"; "depressed"; "down"; "unhappy"; "melancholy"]).
    unfold emotion_keywords; simpl; tauto.
Defined.

(** *** The dominant emotion *)

Lemma max_item_first (l : counter) :
  forall best,
  exists pre post,
    best :: l = pre ++ max_item best l :: post
    /\ (forall x, In x pre -> snd x < snd (max_item best l))
    /\ (forall x, In x post -> snd x <= snd (max_item best l)).
Proof.
  induction l as [|x l IH]; intros best; simpl.
  - exists [], []. simpl. repeat split; intros y [].
  - destruct (snd best <? snd x)%nat eqn:E.
    + apply Nat.ltb_lt in E.
      destruct (IH x) as (pre & post & Heq & Hpre & Hpost).
      remember (max_item x l) as r eqn:Hr. clear Hr.
      assert (Hx : snd x <= snd r).
      { destruct pre as [|p pre]; simpl in Heq; injection Heq as Hh Ht.
        - subst r. lia.
        - subst p. specialize (Hpre x (or_introl eq_refl)). lia. }
      exists (best :: pre), post. simpl. rewrite <- Heq.
      repeat split; [|exact Hpost].
      intros y [<-|Hy]; [lia | now apply Hpre].
    + apply Nat.ltb_ge in E.
      destruct (IH best) as (pre & post & Heq & Hpre & Hpost).
      remember (max_item best l) as r eqn:Hr. clear Hr.
      destruct pre as [|p pre]; simpl in Heq; injection Heq as Hh Ht.
      * subst r l. exists [], (x :: post). simpl.
        repeat split; [intros y []|].
        intros y [<-|Hy]; [exact E | now apply Hpost].
      * subst p l. exists (best :: x :: pre), post. simpl.
        repeat split; [|exact Hpost].
        intros y [<-|[<-|Hy]].
        -- apply Hpre; now left.
        -- specialize (Hpre best (or_introl eq_refl)). lia.
        -- apply Hpre; now right.
Qed.

Lemma incr_keys (c : counter) (e : string) :
  map fst (incr c e) = map fst c \/
  (~ In e (map fst c) /\ map fst (incr c e) = map fst c ++ [e]).
Proof.
  induction c as [|[k n] c IH]; simpl.
  - right. split; [tauto | reflexivity].
  - destruct (String.eqb k e) eqn:E; simpl; [now left|].
    apply String.eqb_neq in E.
    destruct IH as [IH|[Hn IH]]; [left | right]; rewrite IH; [reflexivity|].
    split; [|reflexivity]. intros [H|H]; [congruence | contradiction].
Qed.

Lemma incr_NoDup (c : counter) (e : string) :
  NoDup (map fst c) -> NoDup (map fst (incr c e)).
Proof.
  intros H. destruct (incr_keys c e) as [->|[Hn ->]]; [exact H|].
  apply NoDup_app; [exact H | repeat constructor; intros [] |].
  intros x Hx [<-|[]]. contradiction.
Qed.

Lemma emotions_step_NoDup (c : counter) (m : string) :
  NoDup (map fst c) -> NoDup (map fst (emotions_step c m)).
Proof.
  intros H. rewrite emotions_step_unfold. cbv zeta.
  repeat match goal with
         | |- context [if mentions ?k m then _ else _] => destruct (mentions k m)
         end;
    repeat apply incr_NoDup; exact H.
Qed.

Lemma emotions_scan_NoDup (messages : list string) :
  forall c, NoDup (map fst c) ->
            NoDup (map fst (fold_left emotions_step messages c)).
Proof.
  induction messages as [|m ms IH]; intros c H; simpl; [exact H|].
  apply IH. now apply emotions_step_NoDup.
Qed.

Lemma count_not_in (c : counter) (e : string) :
  ~ In e (map fst c) -> count c e = 0.
Proof.
  induction c as [|[k n] c IH]; simpl; [reflexivity|].
  intros H. destruct (String.eqb k e) eqn:E.
  - apply String.eqb_eq in E. tauto.
  - apply IH. tauto.
Qed.

Lemma count_at (pre post : counter) (e : string) (n : nat) :
  NoDup (map fst (pre ++ (e, n) :: post)) -> count (pre ++ (e, n) :: post) e = n.
Proof.
  induction pre as [|[k v] pre IH]; simpl; intros H.
  - now rewrite String.eqb_refl.
  - inversion H as [|? ? Hn Hd]; subst.
    destruct (String.eqb k e) eqn:E; [|now apply IH].
    apply String.eqb_eq in E; subst k. exfalso. apply Hn.
    rewrite map_app. apply in_or_app. right. now left.
Qed.

Lemma count_in_or_zero (c : counter) (e : string) :
  count c e = 0 \/ In (e, count c e) c.
Proof.
  induction c as [|[k v] c IH]; simpl; [now left|].
  destruct (String.eqb k e) eqn:E.
  - apply String.eqb_eq in E; subst. right; now left.
  - destruct IH; [now left | right; now right].
Qed.

Lemma filter_length_zero {A : Type} (f : A -> bool) (l : list A) :
  List.length (filter f l) = 0 -> forall x, In x l -> f x = false.
Proof.
  induction l as [|y l IH]; simpl; [intros _ x []|].
  destruct (f y) eqn:E; simpl; [discriminate|].
  intros H x [<-|Hx]; [exact E | now apply IH].
Qed.

Lemma emotions_step_silent (c : counter) (m : string) :
  (forall e keywords, In (e, keywords) emotion_keywords -> mentions keywords m = false) ->
  emotions_step c m = c.
Proof.
  intros H. rewrite emotions_step_unfold. cbv zeta.
  unfold emotion_keywords in *. cbn [nth snd].
  repeat match goal with
         | |- context [mentions ?k m] => rewrite (H _ k) by (simpl; eauto 10)
         end.
  reflexivity.
Qed.

(** C7. dominant_emotion is null exactly when no message mentions any
    category; otherwise it is a category of highest count, and among the
    categories of that count it is the one that entered the counter
    first: every entry before it in the counter has a smaller count. *)
Theorem dominant_emotion_first_highest (messages : list string) :
  let r := extract_emotions messages in
  (dominant_emotion r = None <->
     forall m e keywords, In m messages -> In (e, keywords) emotion_keywords ->
                          mentions keywords m = false)
  /\ forall e, dominant_emotion r = Some e ->
       exists pre n post,
         emotion_counts r = pre ++ (e, n) :: post
         /\ n = count (emotion_counts r) e
         /\ 0 < n
         /\ (forall e', count (emotion_counts r) e' <= n)
         /\ (forall x, In x pre -> snd x < n)
         /\ (forall x, In x post -> snd x <= n).
Proof.
  unfold extract_emotions; cbn [dominant_emotion emotion_counts].
  assert (Hnd : NoDup (map fst (emotions_scan messages)))
    by (apply emotions_scan_NoDup; constructor).
  split.
  - split.
    + intros H m e keywords Hm He.
      assert (Hc : emotions_scan messages = []).
      { destruct (emotions_scan messages); [reflexivity | discriminate]. }
      pose proof (emotions_scan_count messages e keywords He []) as Hn.
      fold (emotions_scan messages) in Hn. rewrite Hc in Hn. simpl in Hn.
      symmetry in Hn. now apply (filter_length_zero _ _ Hn).
    + intros H.
      assert (Hc : forall c, fold_left emotions_step messages c = c).
      { induction messages as [|m ms IH]; intros c; simpl; [reflexivity|].
        rewrite emotions_step_silent.
        - apply IH; [|intros; eapply H; eauto; now right].
          apply emotions_scan_NoDup; constructor.
        - intros e keywords He. eapply H; eauto. now left. }
      unfold emotions_scan. now rewrite Hc.
  - intros e. destruct (emotions_scan messages) as [|x l] eqn:Hc; [discriminate|].
    intros H. cbn [most_common_1] in H. injection H as H.
    destruct (max_item_first l x) as (pre & post & Heq & Hpre & Hpost).
    destruct (max_item x l) as [e0 n] eqn:Hmax. cbn [fst snd] in *. subst e0.
    exists pre, n, post. rewrite Heq in Hnd |- *.
    assert (Hn : count (pre ++ (e, n) :: post) e = n) by now apply count_at.
    assert (Hmaxall : forall y, In y (pre ++ (e, n) :: post) -> snd y <= n).
    { intros y Hy. apply in_app_or in Hy. destruct Hy as [Hy|[<-|Hy]].
      - specialize (Hpre y Hy). lia.
      - simpl; lia.
      - now apply Hpost. }
    assert (Hpos : forall y, In y (pre ++ (e, n) :: post) -> 0 < snd y).
    { rewrite <- Heq, <- Hc. clear. unfold emotions_scan.
      assert (G : forall ms c, (forall y, In y c -> 0 < snd y) ->
                  forall y, In y (fold_left emotions_step ms c) -> 0 < snd y).
      { assert (Gi : forall c k, (forall y, In y c -> 0 < snd y) ->
                                 forall y, In y (incr c k) -> 0 < snd y).
        { induction c as [|[k0 v] c IH]; simpl; intros k Hc y.
          - intros [<-|[]]; simpl; lia.
          - destruct (String.eqb k0 k); simpl.
            + intros [<-|Hy]; [simpl; lia | apply Hc; now right].
            + intros [<-|Hy]; [apply (Hc (k0, v)); now left|].
              eapply IH; eauto. }
        induction ms as [|m ms IH]; intros c Hc; simpl; [exact Hc|].
        apply IH. rewrite emotions_step_unfold. cbv zeta.
        repeat match goal with
               | |- context [if mentions ?k m then _ else _] => destruct (mentions k m)
               end;
          repeat apply Gi; exact Hc. }
      apply G. intros y []. }
    repeat split; try assumption.
    + now symmetry.
    + apply (Hpos (e, n)). apply in_or_app. right. now left.
    + intros e'. destruct (count_in_or_zero (pre ++ (e, n) :: post) e') as [->|Hin]; [lia|].
      apply (Hmaxall _ Hin).
Qed.

Lemma dominant_emotion_first_highest_witness :
  dominant_emotion (extract_emotions ["I am happy but anxious"; "so worried"])
  = Some "anxious"
  /\ exists pre n post,
      emotion_counts (extract_emotions ["I am happy but anxious"; "so worried"])
      = pre ++ ("anxious", n) :: post
      /\ (forall x, In x pre -> snd x < n).
Proof.
  split; [reflexivity|].
  destruct (proj2 (dominant_emotion_first_highest
                     ["I am happy but anxious"; "so worried"]) "anxious" eq_refl)
    as (pre & n & post & Heq & _ & _ & _ & Hpre & _).
  exists pre, n, post. split; [exact Heq | exact Hpre].
Defined.

End EmotionFacts.

(** ** The style rewriter *)

Module EngineFacts.
Import MemoryExtractor PersonalityEngine Spec.
Local Open Scope string_scope.

Lemma normalize_chars (style : string) :
  normalize style = map_string norm_char style.
Proof.
  unfold normalize, PyStr.replace.
  induction style as [|ch style IH]; [reflexivity|].
  cbn [PyStr.lower map_string PyStr.replace_from PyStr.startswith].
  unfold norm_char at 1.
  destruct (Ascii.eqb " " (PyStr.lower_char ch)); simpl; now rewrite IH.
Qed.

(** C8. rewrite_response lowercases the style name and puts an
    underscore for every space; the three recognised names are routed to
    their transforms, and every other name makes the call raise a
    ValueError instead of returning a text. *)
Theorem rewrite_response_dispatch (self : engine) (base_response style : string) :
  normalize style = map_string norm_char style
  /\ (normalize style = "calm_mentor" ->
      rewrite_response self base_response style
      = Ok (calm_mentor_style self base_response))
  /\ (normalize style = "witty_friend" ->
      rewrite_response self base_response style
      = Ok (witty_friend_style self base_response))
  /\ (normalize style = "therapist" ->
      rewrite_response self base_response style
      = Ok (therapist_style self base_response))
  /\ (normalize style <> "calm_mentor" ->
      normalize style <> "witty_friend" ->
      normalize style <> "therapist" ->
      (exists msg, rewrite_response self base_response style = Raise (ValueError msg))
      /\ forall text, rewrite_response self base_response style <> Ok text).
Proof.
  split; [apply normalize_chars|].
  unfold rewrite_response.
  repeat split.
  - intros ->. reflexivity.
  - intros ->. reflexivity.
  - intros ->. reflexivity.
  - apply String.eqb_neq in H, H0, H1. rewrite H, H0, H1. eexists; reflexivity.
  - apply String.eqb_neq in H, H0, H1. rewrite H, H0, H1. discriminate.
Qed.

Lemma rewrite_response_dispatch_witness :
  rewrite_response None "Rest." "Calm Mentor" = Ok (calm_mentor_style None "Rest.")
  /\ forall text, rewrite_response None "Rest." "sarcastic" <> Ok text.
Proof.
  split.
  - apply (proj1 (proj2 (rewrite_response_dispatch None "Rest." "Calm Mentor"))).
    reflexivity.
  - apply (proj2 (proj2 (proj2 (proj2
             (rewrite_response_dispatch None "Rest." "sarcastic")))));
      vm_compute; discriminate.
Defined.

End EngineFacts.

(** ** Preferences and the name fact on concrete messages *)

Module Scenarios.
Import MemoryExtractor.

(** C2. On ["I love pizza."; "I hate mornings."; "My favorite color is
    blue."] the likes contain "pizza" and the dislikes contain
    "mornings", but the favorites pattern finds nothing in "my favorite
    color is blue.": after "favorite " it wants "is", "are" or more white
    space, so favorites stays empty and "color is blue" lands in likes. *)
Theorem preferences_scenario :
  extract_preferences ["I love pizza."; "I hate mornings."; "My favorite color is blue."]
  = Ok (MkPrefs ["pizza"; "color is blue"] ["mornings"] [])
  /\ Re.search false favorite_pattern "my favorite color is blue." = None.
Proof. split; vm_compute; reflexivity. Qed.

(** C3. The name patterns are searched with IGNORECASE, under which
    [[A-Z][a-z]+] accepts any run of letters: a message whose candidate
    name is not capitalized sets the name all the same. *)
Theorem name_set_by_uncapitalized_word :
  extract_personal_facts ["i'm tired today"] = Ok [("name", VStr "tired")]
  /\ extract_personal_facts ["I am feeling fine"] = Ok [("name", VStr "feeling")].
Proof. split; vm_compute; reflexivity. Qed.

(** C4. The likes branch removes the filler words from the phrase, the
    dislikes branch appends the phrase as it was extracted. *)
Theorem dislikes_keep_filler_words :
  extract_preferences ["I love cats especially kittens."]
  = Ok (MkPrefs ["cats kittens"] [] [])
  /\ extract_preferences ["I hate cats especially kittens."]
     = Ok (MkPrefs [] ["cats especially kittens"] []).
Proof. split; vm_compute; reflexivity. Qed.

End Scenarios.

(** ** Personal facts *)

Module FactsProps.
Import Re MemoryExtractor Spec StrFacts ReFacts.

Lemma name_capture (p : regex) (s : string) (m : match_object) :
  In p name_patterns -> search true p s = Some m ->
  exists b t, mgroup m 1 = Some (String b t).
Proof.
  intros Hin H. apply search_sound in H. destruct H as (s0 & H).
  assert (Hl : last_of p = Group 1 cap_word).
  { simpl in Hin. decompose [or] Hin; subst; try reflexivity; contradiction. }
  destruct (denote_last _ _ _ _ Hl _ _ _ _ H) as (s1 & c1 & c2 & Hb & Hc).
  apply denote_head_set in Hb. destruct Hb as (b & t & Hv & _).
  exists b, t. unfold mgroup. rewrite Hc, group_set_group. simpl. now rewrite Hv.
Qed.

Lemma birthday_capture (p : regex) (s : string) (m : match_object) :
  In p birthday_patterns -> search true p s = Some m ->
  exists b t, mgroup m 1 = Some (String b t) /\ PyStr.isspace b = false.
Proof.
  intros Hin H. apply search_sound in H. destruct H as (s0 & H).
  assert (Hl : last_of p = Group 1 date).
  { simpl in Hin. decompose [or] Hin; subst; try reflexivity; contradiction. }
  destruct (denote_last _ _ _ _ Hl _ _ _ _ H) as (s1 & c1 & c2 & Hb & Hc).
  apply denote_head_set in Hb. destruct Hb as (b & t & Hv & Hs).
  exists b, t. unfold mgroup. rewrite Hc, group_set_group. simpl. rewrite Hv.
  split; [reflexivity | now apply upper_az_not_space in Hs].
Qed.

Lemma job_capture (p : regex) (s : string) (m : match_object) :
  In p job_patterns -> search true p s = Some m ->
  (1 <? ngroups p)%nat = true
  /\ exists role b t,
      mgroup m 1 = Some role /\ mgroup m 2 = Some (String b t)
      /\ PyStr.isspace b = false.
Proof.
  intros Hin H.
  assert (Hp : (1 <? ngroups p)%nat = true /\ binds 1 p = true
               /\ last_of p = Group 2 cap_phrase).
  { simpl in Hin. decompose [or] Hin; subst; try contradiction;
      repeat split; reflexivity. }
  destruct Hp as (Hn & Hb1 & Hl). split; [exact Hn|].
  destruct (search_binds _ _ _ _ _ Hb1 H) as (role & Hrole).
  apply search_sound in H. destruct H as (s0 & H).
  destruct (denote_last _ _ _ _ Hl _ _ _ _ H) as (s1 & c1 & c2 & Hb & Hc).
  apply denote_head_set in Hb. destruct Hb as (b & t & Hv & Hs).
  exists role, b, t. unfold mgroup. rewrite Hrole. split; [reflexivity|].
  rewrite Hc, group_set_group. simpl. rewrite Hv.
  split; [reflexivity | now apply upper_az_not_space in Hs].
Qed.

Lemma location_capture_bound (p : regex) (s : string) (m : match_object) :
  In p location_patterns -> search true p s = Some m ->
  exists v, mgroup m 1 = Some v.
Proof.
  intros Hin H. eapply search_binds; [|exact H].
  simpl in Hin. decompose [or] Hin; subst; try reflexivity; contradiction.
Qed.

Lemma allergy_capture_bound (s : string) (m : match_object) :
  search false allergy_pattern s = Some m -> exists v, mgroup m 1 = Some v.
Proof. intros H. apply (search_binds false allergy_pattern 1 s m eq_refl H). Qed.

Lemma first_match_in (ps : list regex) (message : string) (m : match_object) :
  first_match ps message = Some m ->
  exists p, In p ps /\ search true p message = Some m.
Proof.
  unfold first_match. induction ps as [|p ps IH]; simpl; [discriminate|].
  destruct (search true p message) eqn:E.
  - intros H; injection H as ->. exists p. split; [now left | exact E].
  - intros H. destruct (IH H) as (q & Hq & Hs). exists q. split; [now right | exact Hs].
Qed.

Lemma name_loop_spec (message : string) (f : facts) :
  forall ps, name_loop ps message f
             = match first_match ps message with
               | Some m => set_name f (mgroup m 1)
               | None => f
               end.
Proof.
  unfold first_match. induction ps as [|p ps IH]; simpl; [reflexivity|].
  destruct (search true p message); [reflexivity | exact IH].
Qed.

Lemma name_of_nonempty (message v : string) :
  name_of message = Some v -> truthy_str (Some v) = true.
Proof.
  unfold name_of. destruct (first_match name_patterns message) as [m|] eqn:E; [|discriminate].
  apply first_match_in in E. destruct E as (p & Hp & Hs).
  destruct (name_capture p message m Hp Hs) as (b & t & ->).
  intros H; injection H as <-. reflexivity.
Qed.

Lemma set_name_same (f : facts) : set_name f (name f) = f.
Proof. now destruct f. Qed.

Lemma name_step (f : facts) (message : string) :
  (if negb (truthy_str (name f)) then name_loop name_patterns message f else f)
  = set_name f (keep (truthy_str (name f)) (name f) (name_of message)).
Proof.
  unfold keep, name_of. rewrite name_loop_spec.
  destruct (truthy_str (name f)); simpl; [now rewrite set_name_same|].
  destruct (first_match name_patterns message) as [m|] eqn:E;
    [|now rewrite set_name_same].
  apply first_match_in in E. destruct E as (p & Hp & Hs).
  destruct (name_capture p message m Hp Hs) as (b & t & ->). reflexivity.
Qed.

Lemma location_loop_spec (message : string) (f : facts) :
  forall ps,
    (forall p, In p ps -> In p location_patterns) ->
    location_loop ps message f
    = Ok (match first_some
                  (fun pattern =>
                     match search true pattern message with
                     | Some m =>
                         match option_map PyStr.strip (mgroup m 1) with
                         | Some loc => if accepted_location loc then Some loc else None
                         | None => None
                         end
                     | None => None
                     end) ps with
          | Some loc => set_location (set_city f (Some loc)) (Some loc)
          | None => f
          end).
Proof.
  induction ps as [|p ps IH]; intros Hps; simpl; [reflexivity|].
  destruct (search true p message) as [m|] eqn:E.
  - destruct (location_capture_bound p message m (Hps p (or_introl eq_refl)) E) as (v & ->).
    simpl. fold (accepted_location (PyStr.strip v)).
    destruct (accepted_location (PyStr.strip v)); [reflexivity|].
    apply IH. intros q Hq. apply Hps. now right.
  - apply IH. intros q Hq. apply Hps. now right.
Qed.

Lemma set_city_location_same (f : facts) :
  set_location (set_city f (city f)) (location f) = f.
Proof. now destruct f. Qed.

Lemma location_step (f : facts) (message : string) :
  (if negb (truthy_str (city f))
   then location_loop location_patterns message f else Ok f)
  = Ok (set_location
          (set_city f (keep (truthy_str (city f)) (city f) (city_of message)))
          (keep (truthy_str (city f)) (location f) (city_of message))).
Proof.
  unfold keep. destruct (truthy_str (city f)); cbn [negb];
    [now rewrite set_city_location_same|].
  rewrite location_loop_spec by auto. fold (city_of message).
  destruct (city_of message); [reflexivity | now rewrite set_city_location_same].
Qed.

Lemma city_of_accepted (message loc : string) :
  city_of message = Some loc -> truthy_str (Some loc) = true.
Proof.
  unfold city_of. generalize location_patterns. intros ps.
  induction ps as [|p ps IH]; simpl; [discriminate|].
  destruct (search true p message) as [m|]; [|exact IH].
  destruct (option_map PyStr.strip (mgroup m 1)) as [l|]; [|exact IH].
  destruct (accepted_location l) eqn:E; [|exact IH].
  intros H; injection H as <-.
  unfold accepted_location in E. apply andb_true_iff in E. destruct E as [_ E].
  apply Nat.ltb_lt in E. destruct l; simpl in *; [lia | reflexivity].
Qed.

Lemma job_loop_spec (message : string) (f : facts) :
  forall ps,
    (forall p, In p ps -> In p job_patterns) ->
    job_loop ps message f
    = Ok (match first_match ps message with
          | Some m =>
              match mgroup m 1, mgroup m 2 with
              | Some role, Some comp =>
                  set_company (set_job_role f (Some (PyStr.strip role)))
                              (Some (PyStr.strip comp))
              | _, _ => f
              end
          | None => f
          end).
Proof.
  unfold first_match.
  induction ps as [|p ps IH]; intros Hps; simpl; [reflexivity|].
  destruct (search true p message) as [m|] eqn:E.
  - destruct (job_capture p message m (Hps p (or_introl eq_refl)) E)
      as (Hn & role & b & t & -> & -> & _).
    rewrite Hn. reflexivity.
  - apply IH. intros q Hq. apply Hps. now right.
Qed.

Lemma set_job_same (f : facts) :
  set_company (set_job_role f (job_role f)) (company f) = f.
Proof. now destruct f. Qed.

Lemma job_step (f : facts) (message : string) :
  (if negb (truthy_str (job_role f))
   then job_loop job_patterns message f else Ok f)
  = Ok (set_company
          (set_job_role f (keep (truthy_str (job_role f)) (job_role f)
                                (option_map fst (job_of message))))
          (keep (truthy_str (job_role f)) (company f)
                (option_map snd (job_of message)))).
Proof.
  unfold keep. destruct (truthy_str (job_role f)); cbn [negb];
    [now rewrite set_job_same|].
  rewrite job_loop_spec by auto. unfold job_of.
  destruct (first_match job_patterns message) as [m|] eqn:E;
    [|now rewrite set_job_same].
  apply first_match_in in E. destruct E as (p & Hp & Hs).
  destruct (job_capture p message m Hp Hs) as (_ & role & b & t & -> & -> & _).
  reflexivity.
Qed.

Lemma job_of_company (message role comp : string) :
  job_of message = Some (role, comp) -> truthy_str (Some comp) = true.
Proof.
  unfold job_of. destruct (first_match job_patterns message) as [m|] eqn:E; [|discriminate].
  apply first_match_in in E. destruct E as (p & Hp & Hs).
  destruct (job_capture p message m Hp Hs) as (_ & r & b & t & -> & -> & Hb).
  intros H; injection H as _ <-.
  destruct (strip_nonspace b t Hb) as (r' & ->). reflexivity.
Qed.

Lemma birthday_loop_spec (message : string) (f : facts) :
  forall ps,
    (forall p, In p ps -> In p birthday_patterns) ->
    birthday_loop ps message f
    = Ok (match first_match ps message with
          | Some m =>
              match mgroup m 1 with
              | Some d => set_birthday f (Some (PyStr.strip d))
              | None => f
              end
          | None => f
          end).
Proof.
  unfold first_match.
  induction ps as [|p ps IH]; intros Hps; simpl; [reflexivity|].
  destruct (search true p message) as [m|] eqn:E.
  - destruct (birthday_capture p message m (Hps p (or_introl eq_refl)) E)
      as (b & t & -> & _).
    reflexivity.
  - apply IH. intros q Hq. apply Hps. now right.
Qed.

Lemma set_birthday_same (f : facts) : set_birthday f (birthday f) = f.
Proof. now destruct f. Qed.

Lemma birthday_step (f : facts) (message : string) :
  (if negb (truthy_str (birthday f))
   then birthday_loop birthday_patterns message f else Ok f)
  = Ok (set_birthday f (keep (truthy_str (birthday f)) (birthday f)
                             (birthday_of message))).
Proof.
  unfold keep. destruct (truthy_str (birthday f)); cbn [negb];
    [now rewrite set_birthday_same|].
  rewrite birthday_loop_spec by auto. unfold birthday_of.
  destruct (first_match birthday_patterns message) as [m|] eqn:E;
    [|now rewrite set_birthday_same].
  apply first_match_in in E. destruct E as (p & Hp & Hs).
  destruct (birthday_capture p message m Hp Hs) as (b & t & -> & _).
  reflexivity.
Qed.

Lemma birthday_of_nonempty (message v : string) :
  birthday_of message = Some v -> truthy_str (Some v) = true.
Proof.
  unfold birthday_of.
  destruct (first_match birthday_patterns message) as [m|] eqn:E; [|discriminate].
  apply first_match_in in E. destruct E as (p & Hp & Hs).
  destruct (birthday_capture p message m Hp Hs) as (b & t & -> & Hb).
  simpl. intros H; injection H as <-.
  destruct (strip_nonspace b t Hb) as (r' & ->). reflexivity.
Qed.

Lemma age_loop_spec (message : string) (f : facts) :
  forall ps, age_loop ps message f
             = match first_match ps message with
               | Some m =>
                   match int_ (mgroup m 1) with
                   | Ok z => set_age f (Some z)
                   | Raise _ => f
                   end
               | None => f
               end.
Proof.
  unfold first_match. induction ps as [|p ps IH]; simpl; [reflexivity|].
  destruct (search true p message); [reflexivity | exact IH].
Qed.

Lemma set_age_same (f : facts) : set_age f (age f) = f.
Proof. now destruct f. Qed.

Lemma age_step (f : facts) (message : string) :
  (if negb (truthy_int (age f)) then age_loop age_patterns message f else f)
  = set_age f (keep (truthy_int (age f)) (age f) (age_of message)).
Proof.
  unfold keep, age_of. rewrite age_loop_spec.
  destruct (truthy_int (age f)); cbn [negb]; [now rewrite set_age_same|].
  destruct (first_match age_patterns message) as [m|];
    [|now rewrite set_age_same].
  destruct (int_ (mgroup m 1)); [reflexivity | now rewrite set_age_same].
Qed.

Lemma allergy_step_spec (message : string) (f : facts) :
  allergy_step (PyStr.lower message) f
  = Ok (set_allergies f (allergies f ++ allergies_of message)).
Proof.
  assert (Hsame : set_allergies f (allergies f ++ []) = f)
    by (rewrite app_nil_r; now destruct f).
  unfold allergy_step, allergies_of. cbv zeta.
  destruct (PyStr.contains "allergic" (PyStr.lower message)); [|now rewrite Hsame].
  destruct (search false allergy_pattern (PyStr.lower message)) as [m|] eqn:E;
    [|now rewrite Hsame].
  destruct (allergy_capture_bound _ _ E) as (v & ->). reflexivity.
Qed.

(** One message: no exception, and each scalar field follows its rule. *)
Lemma facts_step_fields (f : facts) (message : string) :
  exists f',
    facts_step f message = Ok f'
    /\ name f' = keep (truthy_str (name f)) (name f) (name_of message)
    /\ city f' = keep (truthy_str (city f)) (city f) (city_of message)
    /\ location f' = keep (truthy_str (city f)) (location f) (city_of message)
    /\ job_role f' = keep (truthy_str (job_role f)) (job_role f)
                          (option_map fst (job_of message))
    /\ company f' = keep (truthy_str (job_role f)) (company f)
                         (option_map snd (job_of message))
    /\ birthday f' = keep (truthy_str (birthday f)) (birthday f) (birthday_of message)
    /\ age f' = keep (truthy_int (age f)) (age f) (age_of message)
    /\ allergies f' = allergies f ++ allergies_of message.
Proof.
  unfold facts_step. cbv zeta.
  rewrite name_step, location_step. cbn [bind].
  rewrite job_step. cbn [bind].
  rewrite birthday_step. cbn [bind].
  rewrite age_step, allergy_step_spec. cbn [bind].
  eexists. split; [reflexivity|].
  unfold dietary_step.
  repeat match goal with
         | |- context [if ?b then _ else _] =>
             match b with
             | context [PyStr.contains] => destruct b
             end
         end; cbn; repeat split; reflexivity.
Qed.

Lemma facts_scan_ok (messages : list string) :
  forall f, exists f', facts_scan f messages = Ok f'.
Proof.
  induction messages as [|m ms IH]; intros f; simpl; [now exists f|].
  destruct (facts_step_fields f m) as (f1 & -> & _). simpl. apply IH.
Qed.

(** The first message that gives a value decides a field. *)
Section FirstWins.
Context {A B : Type}.
Variable g : facts -> option A.
Variable T : facts -> bool.
Variable e : string -> option B.
Variable pi : B -> A.
Variable good : B -> bool.
Hypothesis step_keep :
  forall f m f', facts_step f m = Ok f' ->
                 g f' = keep (T f) (g f) (option_map pi (e m)).
Hypothesis set_sticky :
  forall f m f', facts_step f m = Ok f' -> T f = true -> T f' = true.
Hypothesis set_by_good :
  forall f m f' v, facts_step f m = Ok f' -> T f = false ->
                   e m = Some v -> good v = true -> T f' = true.
Hypothesis unset_without :
  forall f m f', facts_step f m = Ok f' -> T f = false ->
                 e m = None -> T f' = false.

Lemma scan_sticky (messages : list string) :
  forall f f', facts_scan f messages = Ok f' -> T f = true -> g f' = g f.
Proof.
  induction messages as [|m ms IH]; intros f f'; simpl.
  - now intros [= ->].
  - destruct (facts_step f m) as [f1|] eqn:E; [|discriminate]. simpl.
    intros H Ht. rewrite (IH _ _ H (set_sticky _ _ _ E Ht)).
    rewrite (step_keep _ _ _ E). unfold keep. now rewrite Ht.
Qed.

Lemma scan_first (messages : list string) :
  forall f f',
    facts_scan f messages = Ok f' -> T f = false -> g f = None ->
    (first_some e messages = None -> g f' = None)
    /\ (forall v, first_some e messages = Some v -> good v = true ->
                  g f' = Some (pi v)).
Proof.
  induction messages as [|m ms IH]; intros f f'; simpl.
  - intros [= ->] _ Hg. split; [easy | discriminate].
  - destruct (facts_step f m) as [f1|] eqn:E; [|discriminate]. simpl.
    intros H Ht Hg.
    pose proof (step_keep _ _ _ E) as Hk. unfold keep in Hk. rewrite Ht, Hg in Hk.
    destruct (e m) as [v|] eqn:Ev; simpl in Hk.
    + split; [discriminate|]. intros v' [= <-] Hgood.
      rewrite (scan_sticky _ _ _ H (set_by_good _ _ _ _ E Ht Ev Hgood)).
      exact Hk.
    + apply (IH _ _ H (unset_without _ _ _ E Ht Ev) Hk).
Qed.
End FirstWins.

Lemma step_fields (f : facts) (m : string) (f' : facts) :
  facts_step f m = Ok f' ->
  name f' = keep (truthy_str (name f)) (name f) (name_of m)
  /\ city f' = keep (truthy_str (city f)) (city f) (city_of m)
  /\ location f' = keep (truthy_str (city f)) (location f) (city_of m)
  /\ job_role f' = keep (truthy_str (job_role f)) (job_role f)
                        (option_map fst (job_of m))
  /\ company f' = keep (truthy_str (job_role f)) (company f)
                       (option_map snd (job_of m))
  /\ birthday f' = keep (truthy_str (birthday f)) (birthday f) (birthday_of m)
  /\ age f' = keep (truthy_int (age f)) (age f) (age_of m)
  /\ allergies f' = allergies f ++ allergies_of m.
Proof.
  intros H. destruct (facts_step_fields f m) as (f1 & H1 & Hf).
  rewrite H in H1. injection H1 as <-. exact Hf.
Qed.

Lemma option_map_id {A : Type} (o : option A) : option_map (fun x => x) o = o.
Proof. now destruct o. Qed.

Lemma first_some_good {A B : Type} (e : A -> option B) (P : B -> Prop)
      (l : list A) (v : B) :
  (forall x y, e x = Some y -> P y) -> first_some e l = Some v -> P v.
Proof.
  intros He. induction l as [|x l IH]; simpl; [discriminate|].
  destruct (e x) eqn:E; [|exact IH]. intros [= <-]. eapply He; eauto.
Qed.

Lemma scan_name (messages : list string) (f' : facts) :
  facts_scan facts0 messages = Ok f' ->
  name f' = first_some name_of messages.
Proof.
  intros H.
  assert (H1 : forall f m f1, facts_step f m = Ok f1 ->
             name f1 = keep (truthy_str (name f)) (name f)
                            (option_map (fun x => x) (name_of m))).
  { intros f m f1 E. apply step_fields in E. rewrite option_map_id. tauto. }
  assert (H2 : forall f m f1, facts_step f m = Ok f1 ->
             truthy_str (name f) = true -> truthy_str (name f1) = true).
  { intros f m f1 E Ht. apply step_fields in E. destruct E as (-> & _).
    unfold keep. now rewrite Ht. }
  assert (H3 : forall f m f1 v, facts_step f m = Ok f1 ->
             truthy_str (name f) = false -> name_of m = Some v -> true = true ->
             truthy_str (name f1) = true).
  { intros f m f1 v E Ht Ev _. apply step_fields in E. destruct E as (-> & _).
    unfold keep. rewrite Ht, Ev. now apply name_of_nonempty in Ev. }
  assert (H4 : forall f m f1, facts_step f m = Ok f1 ->
             truthy_str (name f) = false -> name_of m = None ->
             truthy_str (name f1) = false).
  { intros f m f1 E Ht Ev. apply step_fields in E. destruct E as (-> & _).
    unfold keep. now rewrite Ht, Ev. }
  destruct (scan_first name (fun f => truthy_str (name f)) name_of
              (fun x => x) (fun _ => true) H1 H2 H3 H4
              messages facts0 f' H eq_refl eq_refl) as (Hn & Hs).
  destruct (first_some name_of messages) as [v|];
    [now apply Hs | now apply Hn].
Qed.

Lemma scan_birthday (messages : list string) (f' : facts) :
  facts_scan facts0 messages = Ok f' ->
  birthday f' = first_some birthday_of messages.
Proof.
  intros H.
  assert (H1 : forall f m f1, facts_step f m = Ok f1 ->
             birthday f1 = keep (truthy_str (birthday f)) (birthday f)
                            (option_map (fun x => x) (birthday_of m))).
  { intros f m f1 E. apply step_fields in E. rewrite option_map_id. tauto. }
  assert (Hb : forall f m f1, facts_step f m = Ok f1 ->
             birthday f1 = keep (truthy_str (birthday f)) (birthday f) (birthday_of m)).
  { intros f m f1 E. apply step_fields in E. tauto. }
  assert (H2 : forall f m f1, facts_step f m = Ok f1 ->
             truthy_str (birthday f) = true -> truthy_str (birthday f1) = true).
  { intros f m f1 E Ht. rewrite (Hb _ _ _ E). unfold keep. now rewrite Ht. }
  assert (H3 : forall f m f1 v, facts_step f m = Ok f1 ->
             truthy_str (birthday f) = false -> birthday_of m = Some v -> true = true ->
             truthy_str (birthday f1) = true).
  { intros f m f1 v E Ht Ev _. rewrite (Hb _ _ _ E).
    unfold keep. rewrite Ht, Ev. now apply birthday_of_nonempty in Ev. }
  assert (H4 : forall f m f1, facts_step f m = Ok f1 ->
             truthy_str (birthday f) = false -> birthday_of m = None ->
             truthy_str (birthday f1) = false).
  { intros f m f1 E Ht Ev. rewrite (Hb _ _ _ E). unfold keep. now rewrite Ht, Ev. }
  destruct (scan_first birthday (fun f => truthy_str (birthday f)) birthday_of
              (fun x => x) (fun _ => true) H1 H2 H3 H4
              messages facts0 f' H eq_refl eq_refl) as (Hn & Hs).
  destruct (first_some birthday_of messages) as [v|];
    [now apply Hs | now apply Hn].
Qed.

Lemma scan_city (messages : list string) (f' : facts) :
  facts_scan facts0 messages = Ok f' ->
  city f' = first_some city_of messages
  /\ location f' = first_some city_of messages.
Proof.
  intros H.
  assert (Hb : forall f m f1, facts_step f m = Ok f1 ->
             city f1 = keep (truthy_str (city f)) (city f) (city_of m)
             /\ location f1 = keep (truthy_str (city f)) (location f) (city_of m)).
  { intros f m f1 E. apply step_fields in E. tauto. }
  assert (H1 : forall f m f1, facts_step f m = Ok f1 ->
             city f1 = keep (truthy_str (city f)) (city f)
                            (option_map (fun x => x) (city_of m))).
  { intros f m f1 E. rewrite option_map_id. now apply Hb. }
  assert (H1' : forall f m f1, facts_step f m = Ok f1 ->
             location f1 = keep (truthy_str (city f)) (location f)
                            (option_map (fun x => x) (city_of m))).
  { intros f m f1 E. rewrite option_map_id. now apply Hb. }
  assert (H2 : forall f m f1, facts_step f m = Ok f1 ->
             truthy_str (city f) = true -> truthy_str (city f1) = true).
  { intros f m f1 E Ht. rewrite (proj1 (Hb _ _ _ E)). unfold keep. now rewrite Ht. }
  assert (H3 : forall f m f1 v, facts_step f m = Ok f1 ->
             truthy_str (city f) = false -> city_of m = Some v -> true = true ->
             truthy_str (city f1) = true).
  { intros f m f1 v E Ht Ev _. rewrite (proj1 (Hb _ _ _ E)).
    unfold keep. rewrite Ht, Ev. now apply city_of_accepted in Ev. }
  assert (H4 : forall f m f1, facts_step f m = Ok f1 ->
             truthy_str (city f) = false -> city_of m = None ->
             truthy_str (city f1) = false).
  { intros f m f1 E Ht Ev. rewrite (proj1 (Hb _ _ _ E)). unfold keep. now rewrite Ht, Ev. }
  split.
  - destruct (scan_first city (fun f => truthy_str (city f)) city_of
                (fun x => x) (fun _ => true) H1 H2 H3 H4
                messages facts0 f' H eq_refl eq_refl) as (Hn & Hs).
    destruct (first_some city_of messages) as [v|];
      [now apply Hs | now apply Hn].
  - destruct (scan_first location (fun f => truthy_str (city f)) city_of
                (fun x => x) (fun _ => true) H1' H2 H3 H4
                messages facts0 f' H eq_refl eq_refl) as (Hn & Hs).
    destruct (first_some city_of messages) as [v|];
      [now apply Hs | now apply Hn].
Qed.

Lemma scan_job (messages : list string) (f' : facts) :
  facts_scan facts0 messages = Ok f' ->
  (first_some job_of messages = None -> job_role f' = None /\ company f' = None)
  /\ (forall role comp,
         first_some job_of messages = Some (role, comp) -> role <> ""%string ->
         job_role f' = Some role /\ company f' = Some comp).
Proof.
  intros H.
  assert (Hb : forall f m f1, facts_step f m = Ok f1 ->
             job_role f1 = keep (truthy_str (job_role f)) (job_role f)
                                (option_map fst (job_of m))
             /\ company f1 = keep (truthy_str (job_role f)) (company f)
                                  (option_map snd (job_of m))).
  { intros f m f1 E. apply step_fields in E. tauto. }
  assert (H2 : forall f m f1, facts_step f m = Ok f1 ->
             truthy_str (job_role f) = true -> truthy_str (job_role f1) = true).
  { intros f m f1 E Ht. rewrite (proj1 (Hb _ _ _ E)). unfold keep. now rewrite Ht. }
  assert (H3 : forall f m f1 v, facts_step f m = Ok f1 ->
             truthy_str (job_role f) = false -> job_of m = Some v ->
             nonblank v = true -> truthy_str (job_role f1) = true).
  { intros f m f1 [r c] E Ht Ev Hg. rewrite (proj1 (Hb _ _ _ E)).
    unfold keep. rewrite Ht, Ev. simpl. unfold nonblank in Hg. simpl in Hg.
    destruct r; [discriminate | reflexivity]. }
  assert (H4 : forall f m f1, facts_step f m = Ok f1 ->
             truthy_str (job_role f) = false -> job_of m = None ->
             truthy_str (job_role f1) = false).
  { intros f m f1 E Ht Ev. rewrite (proj1 (Hb _ _ _ E)). unfold keep. now rewrite Ht, Ev. }
  destruct (scan_first job_role (fun f => truthy_str (job_role f)) job_of
              fst nonblank (fun f m f1 E => proj1 (Hb f m f1 E)) H2 H3 H4
              messages facts0 f' H eq_refl eq_refl) as (Hn & Hs).
  destruct (scan_first company (fun f => truthy_str (job_role f)) job_of
              snd nonblank (fun f m f1 E => proj2 (Hb f m f1 E)) H2 H3 H4
              messages facts0 f' H eq_refl eq_refl) as (Hn' & Hs').
  split; [now split; auto|].
  intros role comp Hf Hr.
  assert (Hg : nonblank (role, comp) = true).
  { unfold nonblank. simpl. apply negb_true_iff. now apply String.eqb_neq. }
  split; [apply (Hs _ Hf Hg) | apply (Hs' _ Hf Hg)].
Qed.

Lemma scan_age (messages : list string) (f' : facts) :
  facts_scan facts0 messages = Ok f' ->
  (first_some age_of messages = None -> age f' = None)
  /\ (forall z, first_some age_of messages = Some z -> z <> 0%Z -> age f' = Some z).
Proof.
  intros H.
  assert (Hb : forall f m f1, facts_step f m = Ok f1 ->
             age f1 = keep (truthy_int (age f)) (age f) (age_of m)).
  { intros f m f1 E. apply step_fields in E. tauto. }
  assert (H1 : forall f m f1, facts_step f m = Ok f1 ->
             age f1 = keep (truthy_int (age f)) (age f)
                           (option_map (fun x => x) (age_of m))).
  { intros f m f1 E. rewrite option_map_id. now apply Hb. }
  assert (H2 : forall f m f1, facts_step f m = Ok f1 ->
             truthy_int (age f) = true -> truthy_int (age f1) = true).
  { intros f m f1 E Ht. rewrite (Hb _ _ _ E). unfold keep. now rewrite Ht. }
  assert (H3 : forall f m f1 v, facts_step f m = Ok f1 ->
             truthy_int (age f) = false -> age_of m = Some v ->
             negb (Z.eqb v 0) = true -> truthy_int (age f1) = true).
  { intros f m f1 v E Ht Ev Hg. rewrite (Hb _ _ _ E).
    unfold keep. now rewrite Ht, Ev. }
  assert (H4 : forall f m f1, facts_step f m = Ok f1 ->
             truthy_int (age f) = false -> age_of m = None ->
             truthy_int (age f1) = false).
  { intros f m f1 E Ht Ev. rewrite (Hb _ _ _ E). unfold keep. now rewrite Ht, Ev. }
  destruct (scan_first age (fun f => truthy_int (age f)) age_of
              (fun x => x) (fun z => negb (Z.eqb z 0)) H1 H2 H3 H4
              messages facts0 f' H eq_refl eq_refl) as (Hn & Hs).
  split; [exact Hn|].
  intros z Hf Hz. apply (Hs _ Hf). apply negb_true_iff. now apply Z.eqb_neq.
Qed.

Lemma facts_scan_app (l l' : list string) :
  forall f, facts_scan f (l ++ l') = (f1 <- facts_scan f l ;; facts_scan f1 l').
Proof.
  induction l as [|m l IH]; intros f; simpl; [reflexivity|].
  destruct (facts_step f m) as [f1|]; simpl; [apply IH | reflexivity].
Qed.

Ltac splits := repeat match goal with |- _ /\ _ => split end.

Ltac keep_step :=
  let E := fresh "E" in
  intros ? ? ? E; apply step_fields in E; rewrite ?option_map_id; tauto.

Ltac keep_sticky :=
  let E := fresh "E" in
  let Ht := fresh "Ht" in
  intros ? ? ? E Ht; apply step_fields in E; decompose [and] E;
  match goal with
  | H : ?g _ = keep _ _ _ |- _ (?g _) = true => rewrite H; unfold keep; now rewrite Ht
  end.

(** A field that counts as true is not touched any more. *)
Lemma scan_keeps (messages : list string) (f f' : facts) :
  facts_scan f messages = Ok f' ->
  (truthy_str (name f) = true -> name f' = name f)
  /\ (truthy_str (city f) = true -> city f' = city f /\ location f' = location f)
  /\ (truthy_str (job_role f) = true ->
      job_role f' = job_role f /\ company f' = company f)
  /\ (truthy_str (birthday f) = true -> birthday f' = birthday f)
  /\ (truthy_int (age f) = true -> age f' = age f).
Proof.
  intros H. splits; intros Ht; splits.
  - eapply (scan_sticky name (fun f => truthy_str (name f)) name_of (fun x => x));
      [keep_step | keep_sticky | exact H | exact Ht].
  - eapply (scan_sticky city (fun f => truthy_str (city f)) city_of (fun x => x));
      [keep_step | keep_sticky | exact H | exact Ht].
  - eapply (scan_sticky location (fun f => truthy_str (city f)) city_of (fun x => x));
      [keep_step | keep_sticky | exact H | exact Ht].
  - eapply (scan_sticky job_role (fun f => truthy_str (job_role f)) job_of fst);
      [keep_step | keep_sticky | exact H | exact Ht].
  - eapply (scan_sticky company (fun f => truthy_str (job_role f)) job_of snd);
      [keep_step | keep_sticky | exact H | exact Ht].
  - eapply (scan_sticky birthday (fun f => truthy_str (birthday f)) birthday_of (fun x => x));
      [keep_step | keep_sticky | exact H | exact Ht].
  - eapply (scan_sticky age (fun f => truthy_int (age f)) age_of (fun x => x));
      [keep_step | keep_sticky | exact H | exact Ht].
Qed.

(** *** The returned dictionary *)

Lemma get_absent (d : dict) (k : string) :
  ~ In k (map fst d) -> get d k = None.
Proof.
  induction d as [|[k0 v0] d IH]; simpl; [reflexivity|].
  intros H. destruct (String.eqb k0 k) eqn:E.
  - apply String.eqb_eq in E. tauto.
  - apply IH. tauto.
Qed.

Lemma get_filter (p : string * value -> bool) (d : dict) (k : string) :
  NoDup (map fst d) ->
  get (filter p d) k
  = match get d k with
    | Some v => if p (k, v) then Some v else None
    | None => None
    end.
Proof.
  induction d as [|[k0 v0] d IH]; simpl; [reflexivity|].
  intros Hnd. inversion Hnd as [|? ? Hn Hd]; subst.
  destruct (String.eqb k0 k) eqn:E.
  - apply String.eqb_eq in E; subst k0.
    destruct (p (k, v0)); simpl.
    + now rewrite String.eqb_refl.
    + rewrite (IH Hd), (get_absent d k Hn). reflexivity.
  - destruct (p (k0, v0)); simpl; [rewrite E|]; now apply IH.
Qed.

Lemma items_NoDup (f : facts) : NoDup (map fst (items f)).
Proof.
  unfold items; simpl.
  repeat (constructor; [simpl; intuition discriminate|]). constructor.
Qed.

Lemma clean_up_str (f : facts) (k : string) (o : option string) :
  get (items f) k = Some (of_str o) ->
  get (clean_up f) k = if truthy_str o then option_map VStr o else None.
Proof.
  intros H. unfold clean_up. rewrite get_filter by apply items_NoDup.
  rewrite H. simpl. now destruct o as [[|]|].
Qed.

Lemma clean_up_int (f : facts) (k : string) (o : option Z) :
  get (items f) k = Some (of_int o) ->
  get (clean_up f) k = if truthy_int o then option_map VInt o else None.
Proof.
  intros H. unfold clean_up. rewrite get_filter by apply items_NoDup.
  rewrite H. simpl. destruct o as [z|]; simpl; [|reflexivity].
  now destruct (Z.eqb z 0).
Qed.

Lemma first_some_truthy {A : Type} (e : string -> option A) (t : option A -> bool)
      (l : list string) :
  (forall m v, e m = Some v -> t (Some v) = true) -> t None = false ->
  t (first_some e l) = match first_some e l with Some _ => true | None => false end.
Proof.
  intros He Hn. destruct (first_some e l) as [v|] eqn:E; [|exact Hn].
  apply (first_some_good e (fun y => t (Some y) = true) l v He E).
Qed.

Lemma first_some_app {A B : Type} (e : A -> option B) (l l' : list A) :
  first_some e (l ++ l')
  = match first_some e l with
    | Some v => Some v
    | None => first_some e l'
    end.
Proof.
  induction l as [|x l IH]; simpl; [reflexivity|].
  now destruct (e x).
Qed.

Lemma facts_result (messages : list string) :
  exists f, facts_scan facts0 messages = Ok f
  /\ extract_personal_facts messages = Ok (clean_up f).
Proof.
  destruct (facts_scan_ok messages facts0) as (f & H).
  exists f. split; [exact H|]. unfold extract_personal_facts. now rewrite H.
Qed.

(** C1 (amended). extract_personal_facts raises for no list of messages.
    In its result, name and birthday are the capture of the first message
    in which one of the category's patterns is found (the first pattern of
    the list that is found decides); city and location are the trimmed
    capture of the first message with a location pattern whose capture is
    not "The", "A" or "An" and is longer than 2 characters; job_role and
    company are those of the first message with a job pattern, when its
    role is not blank; age is the number of the first message with an age
    pattern that [int] accepts, when it is not 0.  A field of [sticky_keys]
    that is present in the result is the same in the result of any longer
    list of messages. *)
Theorem personal_facts_first_extraction (messages : list string) :
  exists d,
    extract_personal_facts messages = Ok d
    /\ get d "name" = option_map VStr (first_some name_of messages)
    /\ get d "birthday" = option_map VStr (first_some birthday_of messages)
    /\ get d "city" = option_map VStr (first_some city_of messages)
    /\ get d "location" = option_map VStr (first_some city_of messages)
    /\ (first_some job_of messages = None ->
        get d "job_role" = None /\ get d "company" = None)
    /\ (forall role comp,
           first_some job_of messages = Some (role, comp) -> role <> ""%string ->
           get d "job_role" = Some (VStr role) /\ get d "company" = Some (VStr comp))
    /\ (first_some age_of messages = None -> get d "age" = None)
    /\ (forall z, first_some age_of messages = Some z -> z <> 0%Z ->
                  get d "age" = Some (VInt z))
    /\ (forall later key v,
           In key sticky_keys -> get d key = Some v ->
           exists d', extract_personal_facts (messages ++ later) = Ok d'
                      /\ get d' key = Some v).
Proof.
  destruct (facts_result messages) as (f & Hscan & Hres).
  exists (clean_up f). split; [exact Hres|].
  pose proof (scan_name _ _ Hscan) as Hname.
  pose proof (scan_birthday _ _ Hscan) as Hbirth.
  destruct (scan_city _ _ Hscan) as (Hcity & Hloc).
  destruct (scan_job _ _ Hscan) as (Hjob0 & Hjob1).
  destruct (scan_age _ _ Hscan) as (Hage0 & Hage1).
  splits.
  - rewrite (clean_up_str f "name" (name f) eq_refl), Hname.
    rewrite (first_some_truthy name_of truthy_str messages name_of_nonempty eq_refl).
    now destruct (first_some name_of messages).
  - rewrite (clean_up_str f "birthday" (birthday f) eq_refl), Hbirth.
    rewrite (first_some_truthy birthday_of truthy_str messages birthday_of_nonempty eq_refl).
    now destruct (first_some birthday_of messages).
  - rewrite (clean_up_str f "city" (city f) eq_refl), Hcity.
    rewrite (first_some_truthy city_of truthy_str messages city_of_accepted eq_refl).
    now destruct (first_some city_of messages).
  - rewrite (clean_up_str f "location" (location f) eq_refl), Hloc.
    rewrite (first_some_truthy city_of truthy_str messages city_of_accepted eq_refl).
    now destruct (first_some city_of messages).
  - intros H.
    rewrite (clean_up_str f "job_role" (job_role f) eq_refl).
    rewrite (clean_up_str f "company" (company f) eq_refl).
    now rewrite (proj1 (Hjob0 H)), (proj2 (Hjob0 H)).
  - intros role comp H H0.
    rewrite (clean_up_str f "job_role" (job_role f) eq_refl).
    rewrite (clean_up_str f "company" (company f) eq_refl).
    rewrite (proj1 (Hjob1 _ _ H H0)), (proj2 (Hjob1 _ _ H H0)).
    assert (Hc : truthy_str (Some comp) = true).
    { apply (first_some_good job_of (fun p => truthy_str (Some (snd p)) = true)
                             messages (role, comp)); [|exact H].
      intros x [r c] Hx. simpl. eapply job_of_company; eauto. }
    rewrite Hc. split; [|reflexivity].
    destruct role; [congruence | reflexivity].
  - intros Hn. rewrite (clean_up_int f "age" (age f) eq_refl). now rewrite (Hage0 Hn).
  - intros z Hz Hnz. rewrite (clean_up_int f "age" (age f) eq_refl).
    rewrite (Hage1 z Hz Hnz). simpl. apply Z.eqb_neq in Hnz. now rewrite Hnz.
  - intros later key v Hkey Hget.
    destruct (facts_result (messages ++ later)) as (f2 & Hscan2 & Hres2).
    exists (clean_up f2). split; [exact Hres2|].
    rewrite facts_scan_app, Hscan in Hscan2. simpl in Hscan2.
    destruct (scan_keeps _ _ _ Hscan2) as (Kn & Kc & Kj & Kb & Ka).
    unfold sticky_keys in Hkey. simpl in Hkey.
    decompose [or] Hkey; subst; try contradiction.
    + rewrite (clean_up_str f "name" (name f) eq_refl) in Hget.
      rewrite (clean_up_str f2 "name" (name f2) eq_refl).
      destruct (truthy_str (name f)) eqn:E; [|discriminate].
      now rewrite (Kn eq_refl), E.
    + rewrite (clean_up_str f "city" (city f) eq_refl) in Hget.
      rewrite (clean_up_str f2 "city" (city f2) eq_refl).
      destruct (truthy_str (city f)) eqn:E; [|discriminate].
      now rewrite (proj1 (Kc eq_refl)), E.
    + rewrite (clean_up_str f "location" (location f) eq_refl) in Hget.
      rewrite (clean_up_str f2 "location" (location f2) eq_refl).
      destruct (truthy_str (location f)) eqn:E; [|discriminate].
      assert (Ec : truthy_str (city f) = true) by (now rewrite Hcity, <- Hloc).
      now rewrite (proj2 (Kc Ec)), E.
    + rewrite (clean_up_str f "job_role" (job_role f) eq_refl) in Hget.
      rewrite (clean_up_str f2 "job_role" (job_role f2) eq_refl).
      destruct (truthy_str (job_role f)) eqn:E; [|discriminate].
      now rewrite (proj1 (Kj eq_refl)), E.
    + rewrite (clean_up_str f "birthday" (birthday f) eq_refl) in Hget.
      rewrite (clean_up_str f2 "birthday" (birthday f2) eq_refl).
      destruct (truthy_str (birthday f)) eqn:E; [|discriminate].
      now rewrite (Kb eq_refl), E.
    + rewrite (clean_up_int f "age" (age f) eq_refl) in Hget.
      rewrite (clean_up_int f2 "age" (age f2) eq_refl).
      destruct (truthy_int (age f)) eqn:E; [|discriminate].
      now rewrite (Ka eq_refl), E.
Qed.

Lemma personal_facts_first_extraction_witness :
  exists d,
    extract_personal_facts
      ["Hi! My name is Sarah and I'm from New York. I work as a software engineer at Google.";
       "My birthday is on March 15th, 1992. I'm turning 33 this year!"] = Ok d
    /\ get d "job_role" = Some (VStr "software engineer")
    /\ get d "company" = Some (VStr "Google")
    /\ get d "age" = Some (VInt 33).
Proof.
  destruct (personal_facts_first_extraction
              ["Hi! My name is Sarah and I'm from New York. I work as a software engineer at Google.";
               "My birthday is on March 15th, 1992. I'm turning 33 this year!"])
    as (d & Hd & _ & _ & _ & _ & _ & Hjob & _ & Hage & _).
  exists d. split; [exact Hd|].
  destruct (Hjob "software engineer" "Google") as (Hr & Hc);
    [vm_compute; reflexivity | discriminate |].
  split; [exact Hr|]. split; [exact Hc|].
  apply Hage; [vm_compute; reflexivity | discriminate].
Defined.

(** C1 as stated fails: the first message in which a location pattern is
    found gives "NY", which the filter on short words rejects, and the
    city in the result comes from the second message. *)
Lemma first_location_match_rejected :
  exists d,
    extract_personal_facts ["We moved from NY."; "We live in Boston."] = Ok d
    /\ get d "city" = Some (VStr "Boston")
    /\ first_some location_capture ["We moved from NY."; "We live in Boston."]
       = Some "NY"%string.
Proof. eexists. repeat split; vm_compute; reflexivity. Qed.

End FactsProps.

(** ** Equations of the matcher *)

Module ReEquations.
Import Re StrFacts.

Lemma loop_ext (body1 body2 : string -> caps -> cont -> option mres)
      lo hi g (k1 k2 : cont) :
  (forall s c ka kb, (forall s' c', ka s' c' = kb s' c') ->
                     body1 s c ka = body2 s c kb) ->
  (forall s c, k1 s c = k2 s c) ->
  forall fuel n s c,
    loop body1 lo hi g k1 fuel n s c = loop body2 lo hi g k2 fuel n s c.
Proof.
  intros Hb Hk. induction fuel as [|fuel IH]; intros n s c; simpl; [reflexivity|].
  rewrite (Hk s c).
  rewrite (Hb s c
             (fun s' c' => if (String.length s' <? String.length s)%nat
                           then loop body1 lo hi g k1 fuel (S n) s' c' else None)
             (fun s' c' => if (String.length s' <? String.length s)%nat
                           then loop body2 lo hi g k2 fuel (S n) s' c' else None)).
  - reflexivity.
  - intros s' c'. now rewrite IH.
Qed.

Lemma rmatch_ext (ic : bool) (r : regex) :
  forall s c k1 k2,
    (forall s' c', k1 s' c' = k2 s' c') ->
    rmatch ic r s c k1 = rmatch ic r s c k2.
Proof.
  induction r as [a|neg items|r1 IH1 r2 IH2|r1 IH1 r2 IH2| |lo hi g r1 IH1|i r1 IH1| ];
    intros s c k1 k2 Hk.
  - simpl. destruct s; [reflexivity|]. now rewrite Hk.
  - simpl. destruct s; [reflexivity|]. now rewrite Hk.
  - simpl. apply IH1. intros s' c'. now apply IH2.
  - simpl. now rewrite (IH1 s c k1 k2 Hk), (IH2 s c k1 k2 Hk).
  - simpl. apply Hk.
  - change (loop (rmatch ic r1) lo hi g k1 (S (String.length s)) 0 s c
            = loop (rmatch ic r1) lo hi g k2 (S (String.length s)) 0 s c).
    apply loop_ext; [|exact Hk]. intros s0 c0 ka kb Hab. now apply IH1.
  - simpl. apply IH1. intros s' c'. apply Hk.
  - simpl. now rewrite Hk.
Qed.

(** The fuel [S (length s)] that [rmatch] gives a repetition is enough:
    any fuel above the length of the text gives the same result. *)
Lemma loop_fuel (ic : bool) (r : regex) lo hi g (k : cont) :
  forall fuel1 fuel2 n s c,
    String.length s < fuel1 -> String.length s < fuel2 ->
    loop (rmatch ic r) lo hi g k fuel1 n s c
    = loop (rmatch ic r) lo hi g k fuel2 n s c.
Proof.
  induction fuel1 as [|fuel1 IH]; intros fuel2 n s c H1 H2; [lia|].
  destruct fuel2 as [|fuel2]; [lia|].
  cbn [loop].
  rewrite (rmatch_ext ic r s c
             (fun s' c' => if (String.length s' <? String.length s)%nat
                           then loop (rmatch ic r) lo hi g k fuel1 (S n) s' c' else None)
             (fun s' c' => if (String.length s' <? String.length s)%nat
                           then loop (rmatch ic r) lo hi g k fuel2 (S n) s' c' else None));
    [reflexivity|].
  intros s' c'. destruct (String.length s' <? String.length s)%nat eqn:E; [|reflexivity].
  apply Nat.ltb_lt in E. apply IH; lia.
Qed.

(** The loops over one character set use no more fuel than the text is
    long. *)
Lemma loop_greedy_set (ic neg : bool) (items : list item) (lo : nat) (k : cont) :
  forall s fuel n c,
    String.length s < fuel ->
    loop (rmatch ic (Set_ neg items)) lo None true k fuel n s c
    = greedy_set (set_matches ic neg items) lo k c n s.
Proof.
  induction s as [|b s IH]; intros fuel n c Hf;
    (destruct fuel as [|fuel]; [simpl in Hf; lia|]); simpl.
  - reflexivity.
  - destruct (set_matches ic neg items b); [|reflexivity].
    replace (String.length s <? S (String.length s))%nat with true
      by (symmetry; apply Nat.ltb_lt; lia).
    rewrite IH by (simpl in Hf; lia). reflexivity.
Qed.

Lemma loop_lazy_set (ic neg : bool) (items : list item) (lo : nat) (k : cont) :
  forall s fuel n c,
    String.length s < fuel ->
    loop (rmatch ic (Set_ neg items)) lo None false k fuel n s c
    = lazy_set (set_matches ic neg items) lo k c n s.
Proof.
  induction s as [|b s IH]; intros fuel n c Hf;
    (destruct fuel as [|fuel]; [simpl in Hf; lia|]); simpl.
  - reflexivity.
  - destruct (if (lo <=? n)%nat then k (String b s) c else None); [reflexivity|].
    destruct (set_matches ic neg items b); [|reflexivity].
    replace (String.length s <? S (String.length s))%nat with true
      by (symmetry; apply Nat.ltb_lt; lia).
    apply IH. simpl in Hf; lia.
Qed.

Lemma rmatch_plus (ic neg : bool) (items : list item) (s : string) (c : caps) (k : cont) :
  rmatch ic (plus (Set_ neg items)) s c k
  = greedy_set (set_matches ic neg items) 1 k c 0 s.
Proof. unfold plus. cbn [rmatch]. apply loop_greedy_set. lia. Qed.

Lemma rmatch_plus_lazy (ic neg : bool) (items : list item) (s : string) (c : caps) (k : cont) :
  rmatch ic (plus_lazy (Set_ neg items)) s c k
  = lazy_set (set_matches ic neg items) 1 k c 0 s.
Proof. unfold plus_lazy. cbn [rmatch]. apply loop_lazy_set. lia. Qed.

(** A literal text, compared as it is. *)
Lemma rmatch_lit (p : string) :
  forall s c k,
    rmatch false (lit_ p) s c k
    = if PyStr.startswith p s then k (PyStr.drop (String.length p) s) c else None.
Proof.
  induction p as [|a p IH]; intros s c k; [destruct s; reflexivity|].
  destruct p as [|a' p].
  - simpl. destruct s as [|b s]; [reflexivity|].
    unfold lit_matches. destruct (Ascii.eqb a b); simpl; [|reflexivity].
    now destruct s.
  - change (lit_ (String a (String a' p))) with (Seq (Lit a) (lit_ (String a' p))).
    cbn [rmatch]. destruct s as [|b s]; [reflexivity|].
    unfold lit_matches. cbn [PyStr.startswith].
    destruct (Ascii.eqb a b); cbn [andb]; [|reflexivity].
    rewrite IH. reflexivity.
Qed.



Lemma rmatch_opt (ic : bool) (r : regex) (s : string) (c : caps) (k : cont) :
  rmatch ic (opt r) s c k
  = match rmatch ic r s c
            (fun s' c' => if (String.length s' <? String.length s)%nat
                          then k s' c' else None) with
    | Some m => Some m
    | None => k s c
    end.
Proof.
  unfold opt. cbn [rmatch loop below].
  change (0 <? 1)%nat with true. change (0 <=? 0)%nat with true. cbv iota.
  rewrite (rmatch_ext ic r s c _
             (fun s' c' => if (String.length s' <? String.length s)%nat
                           then k s' c' else None)); [reflexivity|].
  intros s' c'. destruct (String.length s' <? String.length s)%nat eqn:E; [|reflexivity].
  apply Nat.ltb_lt in E. destruct (String.length s); [lia|]. reflexivity.
Qed.

Lemma greedy_one_space (P : ascii -> bool) (k : cont) (c : caps)
      (a b : ascii) (r : string) :
  P a = true -> P b = false ->
  greedy_set P 1 k c 0 (String a (String b r)) = k (String b r) c.
Proof.
  intros Ha Hb. cbn [greedy_set]. rewrite Ha, Hb. cbn.
  now destruct (k (String b r) c).
Qed.

Lemma greedy_needs_one (P : ascii -> bool) (k : cont) (c : caps) (s : string) :
  match s with String b _ => P b | EmptyString => false end = false ->
  greedy_set P 1 k c 0 s = None.
Proof.
  destruct s as [|b s]; cbn [greedy_set]; [reflexivity|].
  now intros ->.
Qed.

Lemma lazy_to_period (P : ascii -> bool) (k : cont) (c : caps) :
  P "."%char = false ->
  (forall b r, P b = true -> k (String b (r ++ ".")%string) c = None) ->
  forall x n,
    all_chars P x = true ->
    (1 <= n \/ x <> ""%string) ->
    lazy_set P 1 k c n (x ++ ".")%string = k "."%string c.
Proof.
  intros Hp Hk. induction x as [|b x IH]; intros n Hall Hn.
  - destruct Hn as [Hn|Hn]; [|congruence].
    cbn [append lazy_set]. replace (1 <=? n)%nat with true
      by (symmetry; now apply Nat.leb_le).
    rewrite Hp. now destruct (k "."%string c).
  - cbn [all_chars] in Hall. apply andb_true_iff in Hall. destruct Hall as [Hb Hall].
    cbn [append lazy_set]. rewrite (Hk b x Hb), Hb.
    destruct (1 <=? n)%nat; apply IH; auto; left; lia.
Qed.

Lemma search_from_lit_miss (p : string) (r : regex) (ch : ascii) (s : string) (pos : nat) :
  PyStr.startswith p (String ch s) = false ->
  search_from false (Seq (lit_ p) r) pos (String ch s)
  = search_from false (Seq (lit_ p) r) (S pos) s.
Proof.
  intros H. cbn [search_from rmatch]. now rewrite rmatch_lit, H.
Qed.

Lemma search_from_hit (r : regex) (s rest : string) (c : caps) (pos : nat) :
  rmatch false r s [] accept = Some (rest, c) ->
  search_from false r pos s = Some (MkMatch pos c rest).
Proof. intros H. destruct s; cbn [search_from]; now rewrite H. Qed.

End ReEquations.

(** ** Allergies *)

Module AllergyFacts.
Import Re MemoryExtractor Spec StrFacts ReFacts FactsProps ReEquations.










Lemma clean_up_list (f : facts) (k : string) (l : list string) :
  get (items f) k = Some (VList l) ->
  get (clean_up f) k = match l with [] => None | _ => Some (VList l) end.
Proof.
  intros H. unfold clean_up. rewrite get_filter by apply items_NoDup.
  rewrite H. now destruct l.
Qed.



(** C5. The text after "allergic to " is cut with [split('and')], at
    every occurrence of the three letters and not at the word: "sand and
    bandages" gives "s", "", "b" and "ages".  The capture [[^.]+] ends at
    a full stop only, so "peanuts! Shellfish is fine." is taken whole.
    On "I'm allergic to peanuts and shellfish." the result is the one the
    claim gives. *)
Theorem allergies_cut_inside_words :
  (exists d,
      extract_personal_facts ["I'm allergic to sand and bandages."] = Ok d
      /\ get d "allergies" = Some (VList ["s"; ""; "b"; "ages"]))
  /\ (exists d,
         extract_personal_facts ["I'm allergic to peanuts! Shellfish is fine."] = Ok d
         /\ get d "allergies" = Some (VList ["peanuts! shellfish is fine"]))
  /\ (exists d,
         extract_personal_facts ["I'm allergic to peanuts and shellfish."] = Ok d
         /\ get d "allergies" = Some (VList ["peanuts"; "shellfish"])).
Proof. repeat split; eexists; split; vm_compute; reflexivity. Qed.

End AllergyFacts.

(** ** Preferences *)

Module PreferenceFacts.
Import Re MemoryExtractor Spec StrFacts ReFacts FactsProps ReEquations AllergyFacts.

Lemma space_char_eq (b : ascii) : space_char b = PyStr.isspace b.
Proof.
  unfold space_char, set_matches. cbn [existsb item_matches].
  rewrite orb_false_r. now destruct (PyStr.isspace b).
Qed.

Lemma next_is_space_period (d : string) :
  next_is_space (d ++ ".")%string = next_is_space d.
Proof. now destruct d. Qed.

Lemma no_terminator_chars (x : string) :
  no_terminator x = true -> all_chars not_terminator_char x = true.
Proof.
  unfold no_terminator. induction x as [|b x IH]; [reflexivity|].
  cbn [PyStr.contains PyStr.startswith all_chars]. rewrite !andb_true_r.
  unfold not_terminator_char at 1, set_matches. cbn [existsb item_matches].
  destruct (Ascii.eqb "." b); [discriminate|].
  destruct (Ascii.eqb "!" b); [rewrite andb_false_r; discriminate|].
  destruct (Ascii.eqb "?" b); [rewrite andb_false_r; discriminate|].
  intros H. simpl. apply IH. exact H.
Qed.

(** After white space that the phrase follows at once, no article is
    found when the phrase does not start with one. *)
Lemma articles_fail (x : string) (c : caps) (K : cont) :
  2 < String.length x ->
  article_then_space x = false ->
  (forall s' c', next_is_space s' = false -> K s' c' = None) ->
  rmatch false articles (x ++ ".") c K = None.
Proof.
  intros Hlen Hart HK.
  unfold article_then_space in Hart. cbn [existsb] in Hart.
  rewrite orb_false_r in Hart.
  apply orb_false_iff in Hart. destruct Hart as [H1 Hart].
  apply orb_false_iff in Hart. destruct Hart as [H2 H3].
  unfold articles. cbn [alt_ rmatch].
  rewrite !rmatch_lit.
  rewrite !startswith_prefix_only by (simpl; lia).
  rewrite !drop_append_le by (simpl; lia).
  assert (G : forall art,
             PyStr.startswith art x
             && next_is_space (PyStr.drop (String.length art) x) = false ->
             (if PyStr.startswith art x
              then K (PyStr.drop (String.length art) x ++ ".")%string c
              else None) = None).
  { intros art H. destruct (PyStr.startswith art x); [|reflexivity].
    simpl in H. apply HK. now rewrite next_is_space_period. }
  now rewrite (G _ H1), (G _ H2), (G _ H3).
Qed.

Lemma terminator_fails (b : ascii) (r : string) (c : caps) :
  not_terminator_char b = true ->
  rmatch false terminator (String b (r ++ ".")) c accept = None.
Proof.
  unfold not_terminator_char, set_matches. cbn [existsb item_matches].
  intros H. unfold terminator. cbn [alt_ rmatch lit_matches].
  destruct (Ascii.eqb "." b); [discriminate|].
  destruct (Ascii.eqb "!" b); [discriminate|].
  now destruct r.
Qed.

(** The part of the pattern after the indicator, on a blank, a plain
    phrase and a full stop: the group is the phrase. *)
Lemma tail_match (x : string) :
  plain_phrase x ->
  rmatch false pref_tail (String " " (x ++ ".")) [] accept
  = Some (""%string, [(1, x)]).
Proof.
  intros (Hlen & Hnt & Hstrip & Hart & Hfill).
  destruct x as [|b x']; [simpl in Hlen; lia|].
  pose proof (strip_fixed_head b x' Hstrip) as Hb.
  set (x := String b x') in *.
  unfold pref_tail. cbn [seq_].
  fold articles terminator.
  cbn [rmatch]. rewrite rmatch_opt. cbn [rmatch].
  unfold space at 1. rewrite rmatch_plus. fold space_char.
  change (String " " (x ++ ".")) with (String " " (String b (x' ++ "."))).
  rewrite greedy_one_space by (rewrite space_char_eq; first [reflexivity | exact Hb]).
  change (String b (x' ++ ".")) with (x ++ ".")%string.
  rewrite articles_fail; [|exact Hlen|exact Hart|].
  - unfold space at 1. rewrite rmatch_plus. fold space_char.
    change (String " " (x ++ ".")) with (String " " (String b (x' ++ "."))).
    rewrite greedy_one_space by (rewrite space_char_eq; first [reflexivity | exact Hb]).
    change (String b (x' ++ ".")) with (x ++ ".")%string.
    unfold not_terminator. rewrite rmatch_plus_lazy. fold not_terminator_char.
    rewrite lazy_to_period.
    + cbn [rmatch terminator alt_ lit_matches]. rewrite Ascii.eqb_refl.
      unfold accept. now rewrite (consumed_append x ".").
    + reflexivity.
    + intros b0 r Hb0. now apply terminator_fails.
    + now apply no_terminator_chars.
    + right. discriminate.
  - intros s' c' Hs'.
    destruct (String.length s' <? _)%nat; [|reflexivity].
    unfold space at 1. rewrite rmatch_plus. fold space_char.
    apply greedy_needs_one. destruct s' as [|b0 s']; [reflexivity|].
    rewrite space_char_eq. exact Hs'.
Qed.

Lemma pref_match_here (indicator x : string) :
  plain_phrase x ->
  rmatch false (pref_pattern indicator) (indicator ++ String " " (x ++ ".")) [] accept
  = Some (""%string, [(1, x)]).
Proof.
  intros Hx. unfold pref_pattern. cbn [rmatch].
  rewrite rmatch_lit, startswith_self, drop_self. now apply tail_match.
Qed.

Lemma like_search (x : string) :
  plain_phrase x ->
  search false (pref_pattern "like") ("i don't like " ++ x ++ ".")
  = Some (MkMatch 8 [(1, x)] "").
Proof.
  intros Hx. unfold search. cbn [append]. unfold pref_pattern.
  do 8 (rewrite search_from_lit_miss by reflexivity).
  apply search_from_hit. now apply (pref_match_here "like").
Qed.

Lemma dont_like_search (x : string) :
  plain_phrase x ->
  search false (pref_pattern "don't like") ("i don't like " ++ x ++ ".")
  = Some (MkMatch 2 [(1, x)] "").
Proof.
  intros Hx. unfold search. cbn [append]. unfold pref_pattern.
  do 2 (rewrite search_from_lit_miss by reflexivity).
  apply search_from_hit. now apply (pref_match_here "don't like").
Qed.

(** The clean-up of the likes leaves a phrase without filler as it is. *)
Lemma fillers_fail (s : string) (c : caps) :
  PyStr.startswith "especially" s || PyStr.startswith "like" s
  || PyStr.startswith "such as" s = false ->
  rmatch false fillers s c accept = None.
Proof.
  intros H. apply orb_false_iff in H. destruct H as [H H3].
  apply orb_false_iff in H. destruct H as [H1 H2].
  unfold fillers. cbn [alt_ rmatch]. rewrite !rmatch_lit.
  now rewrite H1, H2, H3.
Qed.

Lemma filler_greedy (s : string) :
  forall n,
    has_filler s = false ->
    (1 <= n -> rmatch false fillers s [] accept = None) ->
    greedy_set space_char 1 (fun s' c' => rmatch false fillers s' c' accept) [] n s
    = None.
Proof.
  induction s as [|b s IH]; intros n Hf Hn; cbn [greedy_set].
  - destruct (1 <=? n)%nat eqn:E; [|reflexivity].
    apply Hn. now apply Nat.leb_le.
  - cbn [has_filler] in Hf. apply orb_false_iff in Hf. destruct Hf as [Hf1 Hf2].
    assert (Hstop : (if (1 <=? n)%nat
                     then rmatch false fillers (String b s) [] accept
                     else None) = None).
    { destruct (1 <=? n)%nat eqn:E; [|reflexivity].
      apply Hn. now apply Nat.leb_le. }
    rewrite space_char_eq.
    destruct (PyStr.isspace b); [|exact Hstop].
    rewrite IH; [exact Hstop | exact Hf2 |].
    intros _. apply fillers_fail. exact Hf1.
Qed.

Lemma filler_rmatch (s : string) :
  has_filler s = false -> rmatch false filler_pattern s [] accept = None.
Proof.
  intros H. unfold filler_pattern. cbn [rmatch].
  unfold space at 1. rewrite rmatch_plus. fold space_char. fold fillers.
  apply filler_greedy; [exact H | lia].
Qed.

Lemma no_filler_sub (x : string) :
  has_filler x = false -> sub filler_pattern "" x = x.
Proof.
  unfold sub. induction x as [|b x IH]; intros H; [reflexivity|].
  cbn [sub_from]. rewrite (filler_rmatch _ H).
  cbn [has_filler] in H. apply orb_false_iff in H. destruct H as [_ H].
  now rewrite (IH H).
Qed.

(** *** The loops over the indicators *)

Lemma add_new_keeps (item y : string) (l : list string) :
  In y l -> In y (add_new item l).
Proof.
  intros H. unfold add_new.
  destruct ((2 <? String.length item)%nat && negb (PyStr.mem item l)); [|exact H].
  apply in_or_app. now left.
Qed.

Lemma add_new_adds (item : string) (l : list string) :
  2 < String.length item -> In item (add_new item l).
Proof.
  intros H. unfold add_new. apply Nat.ltb_lt in H. rewrite H. simpl.
  destruct (PyStr.mem item l) eqn:E; simpl.
  - now apply mem_In.
  - apply in_or_app. right. now left.
Qed.

Lemma pref_capture_bound (indicator s : string) (m : match_object) :
  search false (pref_pattern indicator) s = Some m -> exists g, mgroup m 1 = Some g.
Proof.
  apply search_binds. unfold pref_pattern. cbn [binds]. apply orb_true_r.
Qed.

Lemma likes_loop_grows (ml : string) :
  forall inds l,
  exists l', likes_loop inds ml l = Ok l' /\ (forall y, In y l -> In y l').
Proof.
  induction inds as [|ind inds IH]; intros l; cbn [likes_loop].
  - exists l. now split.
  - destruct (PyStr.contains ind ml); [|apply IH].
    destruct (search false (pref_pattern ind) ml) as [m|] eqn:E; [|apply IH].
    destruct (pref_capture_bound _ _ _ E) as (g & ->). cbn [attr bind].
    destruct (IH (add_new (sub filler_pattern "" (PyStr.strip g)) l)) as (l' & -> & Hl).
    exists l'. split; [reflexivity|]. intros y Hy. apply Hl. now apply add_new_keeps.
Qed.

Lemma likes_loop_hit (ml indicator : string) (m : match_object) (g : string) :
  PyStr.contains indicator ml = true ->
  search false (pref_pattern indicator) ml = Some m ->
  mgroup m 1 = Some g ->
  2 < String.length (sub filler_pattern "" (PyStr.strip g)) ->
  forall inds l,
    In indicator inds ->
    exists l', likes_loop inds ml l = Ok l'
               /\ In (sub filler_pattern "" (PyStr.strip g)) l'
               /\ (forall y, In y l -> In y l').
Proof.
  intros Hc Hs Hg Hlen. induction inds as [|ind inds IH]; intros l Hin; [destruct Hin|].
  destruct (likes_loop_grows ml (ind :: inds) l) as (l' & Hl' & Hgrow).
  exists l'. split; [exact Hl'|]. split; [|exact Hgrow].
  cbn [likes_loop] in Hl'.
  destruct (string_dec ind indicator) as [->|Hne].
  - rewrite Hc, Hs, Hg in Hl'. cbn [attr bind] in Hl'.
    destruct (likes_loop_grows ml inds
                (add_new (sub filler_pattern "" (PyStr.strip g)) l)) as (l2 & Hl2 & Hg2).
    rewrite Hl2 in Hl'. injection Hl' as <-.
    apply Hg2. now apply add_new_adds.
  - destruct Hin as [Hin|Hin]; [congruence|].
    assert (Hrest : forall l0, likes_loop inds ml l0 = Ok l' ->
                               In (sub filler_pattern "" (PyStr.strip g)) l').
    { intros l0 H0. destruct (IH l0 Hin) as (l3 & Hl3 & Hin3 & _).
      rewrite H0 in Hl3. now injection Hl3 as <-. }
    destruct (PyStr.contains ind ml); [|now apply (Hrest l)].
    destruct (search false (pref_pattern ind) ml) as [m0|] eqn:E; [|now apply (Hrest l)].
    destruct (pref_capture_bound _ _ _ E) as (g0 & Hg0). rewrite Hg0 in Hl'.
    cbn [attr bind] in Hl'. now apply (Hrest _ Hl').
Qed.

Lemma dislikes_loop_grows (ml : string) :
  forall inds l,
  exists l', dislikes_loop inds ml l = Ok l' /\ (forall y, In y l -> In y l').
Proof.
  induction inds as [|ind inds IH]; intros l; cbn [dislikes_loop].
  - exists l. now split.
  - destruct (PyStr.contains ind ml); [|apply IH].
    destruct (search false (pref_pattern ind) ml) as [m|] eqn:E; [|apply IH].
    destruct (pref_capture_bound _ _ _ E) as (g & ->). cbn [attr bind].
    destruct (IH (add_new (PyStr.strip g) l)) as (l' & -> & Hl).
    exists l'. split; [reflexivity|]. intros y Hy. apply Hl. now apply add_new_keeps.
Qed.

Lemma dislikes_loop_hit (ml indicator : string) (m : match_object) (g : string) :
  PyStr.contains indicator ml = true ->
  search false (pref_pattern indicator) ml = Some m ->
  mgroup m 1 = Some g ->
  2 < String.length (PyStr.strip g) ->
  forall inds l,
    In indicator inds ->
    exists l', dislikes_loop inds ml l = Ok l'
               /\ In (PyStr.strip g) l'
               /\ (forall y, In y l -> In y l').
Proof.
  intros Hc Hs Hg Hlen. induction inds as [|ind inds IH]; intros l Hin; [destruct Hin|].
  destruct (dislikes_loop_grows ml (ind :: inds) l) as (l' & Hl' & Hgrow).
  exists l'. split; [exact Hl'|]. split; [|exact Hgrow].
  cbn [dislikes_loop] in Hl'.
  destruct (string_dec ind indicator) as [->|Hne].
  - rewrite Hc, Hs, Hg in Hl'. cbn [attr bind] in Hl'.
    destruct (dislikes_loop_grows ml inds (add_new (PyStr.strip g) l)) as (l2 & Hl2 & Hg2).
    rewrite Hl2 in Hl'. injection Hl' as <-.
    apply Hg2. now apply add_new_adds.
  - destruct Hin as [Hin|Hin]; [congruence|].
    assert (Hrest : forall l0, dislikes_loop inds ml l0 = Ok l' ->
                               In (PyStr.strip g) l').
    { intros l0 H0. destruct (IH l0 Hin) as (l3 & Hl3 & Hin3 & _).
      rewrite H0 in Hl3. now injection Hl3 as <-. }
    destruct (PyStr.contains ind ml); [|now apply (Hrest l)].
    destruct (search false (pref_pattern ind) ml) as [m0|] eqn:E; [|now apply (Hrest l)].
    destruct (pref_capture_bound _ _ _ E) as (g0 & Hg0). rewrite Hg0 in Hl'.
    cbn [attr bind] in Hl'. now apply (Hrest _ Hl').
Qed.

Lemma favorites_step_ok (ml : string) (l : list string) :
  exists l', favorites_step ml l = Ok l'.
Proof.
  unfold favorites_step.
  destruct (PyStr.contains "favorite" ml || PyStr.contains "favourite" ml);
    [|now exists l].
  destruct (search false favorite_pattern ml) as [m|] eqn:E; [|now exists l].
  destruct (search_binds false favorite_pattern 1 ml m eq_refl E) as (g & Hg).
  unfold mgroup. rewrite Hg. cbn [attr bind]. eexists; reflexivity.
Qed.

(** One message never raises, and the likes and dislikes only grow. *)
Lemma prefs_step_grows (p : preferences) (message : string) :
  exists p', prefs_step p message = Ok p'
             /\ (forall y, In y (likes p) -> In y (likes p'))
             /\ (forall y, In y (dislikes p) -> In y (dislikes p')).
Proof.
  unfold prefs_step. cbv zeta.
  destruct (likes_loop_grows (PyStr.lower message) like_indicators (likes p))
    as (l & -> & Hl).
  destruct (dislikes_loop_grows (PyStr.lower message) dislike_indicators (dislikes p))
    as (d & -> & Hd).
  destruct (favorites_step_ok (PyStr.lower message) (favorites p)) as (f & ->).
  cbn [bind]. eexists. split; [reflexivity|]. now split.
Qed.

Lemma prefs_scan_grows (messages : list string) :
  forall p,
  exists p', prefs_scan p messages = Ok p'
             /\ (forall y, In y (likes p) -> In y (likes p'))
             /\ (forall y, In y (dislikes p) -> In y (dislikes p')).
Proof.
  induction messages as [|m ms IH]; intros p; cbn [prefs_scan].
  - exists p. now repeat split.
  - destruct (prefs_step_grows p m) as (p1 & -> & Hl1 & Hd1). cbn [bind].
    destruct (IH p1) as (p2 & -> & Hl2 & Hd2).
    exists p2. split; [reflexivity|]. split; auto.
Qed.

Lemma prefs_step_dont_like (p : preferences) (X : string) :
  plain_phrase (PyStr.lower X) ->
  exists p', prefs_step p ("I don't like " ++ X ++ ".") = Ok p'
             /\ In (PyStr.lower X) (likes p')
             /\ In (PyStr.lower X) (dislikes p').
Proof.
  intros Hx. pose proof Hx as (Hlen & _ & Hstrip & _ & Hfill).
  unfold prefs_step. cbv zeta.
  assert (Hml : PyStr.lower ("I don't like " ++ X ++ ".")
                = ("i don't like " ++ PyStr.lower X ++ ".")%string).
  { now rewrite !lower_append. }
  rewrite Hml.
  destruct (likes_loop_hit ("i don't like " ++ PyStr.lower X ++ ".") "like"
              _ (PyStr.lower X) eq_refl (like_search _ Hx) eq_refl)
    with (inds := like_indicators) (l := likes p) as (l & -> & Hl & _).
  { rewrite Hstrip, (no_filler_sub _ Hfill). exact Hlen. }
  { unfold like_indicators. simpl. tauto. }
  destruct (dislikes_loop_hit ("i don't like " ++ PyStr.lower X ++ ".") "don't like"
              _ (PyStr.lower X) eq_refl (dont_like_search _ Hx) eq_refl)
    with (inds := dislike_indicators) (l := dislikes p) as (d & -> & Hd & _).
  { rewrite Hstrip. exact Hlen. }
  { unfold dislike_indicators. simpl. tauto. }
  destruct (favorites_step_ok ("i don't like " ++ PyStr.lower X ++ ".") (favorites p))
    as (f & ->).
  cbn [bind]. eexists. split; [reflexivity|].
  rewrite Hstrip in Hl, Hd. rewrite (no_filler_sub _ Hfill) in Hl.
  now split.
Qed.

(** C10 (amended). A message "I don't like X." puts the lowercased X in
    the likes (through the indicator "like") and in the dislikes (through
    "don't like") when the lowercased X is a plain phrase: longer than 2
    characters, without ".", "!" or "?", without white space at either
    end, not starting with "the", "a" or "an" and white space, and without
    white space followed by "especially", "like" or "such as". *)
Theorem dont_like_phrase_in_both_lists (messages : list string) (X : string) :
  plain_phrase (PyStr.lower X) ->
  In ("I don't like " ++ X ++ ".")%string messages ->
  exists p,
    extract_preferences messages = Ok p
    /\ In (PyStr.lower X) (likes p)
    /\ In (PyStr.lower X) (dislikes p).
Proof.
  intros Hx. unfold extract_preferences. generalize (MkPrefs [] [] []).
  induction messages as [|m ms IH]; intros p Hin; [destruct Hin|].
  cbn [prefs_scan]. destruct Hin as [->|Hin].
  - destruct (prefs_step_dont_like p X Hx) as (p1 & -> & Hl & Hd). cbn [bind].
    destruct (prefs_scan_grows ms p1) as (p2 & -> & Hl2 & Hd2).
    exists p2. split; [reflexivity|]. split; auto.
  - destruct (prefs_step_grows p m) as (p1 & -> & _). cbn [bind].
    now apply IH.
Qed.

Lemma dont_like_phrase_in_both_lists_witness :
  exists p,
    extract_preferences ["I love pizza."; "I don't like crowded places."] = Ok p
    /\ In "crowded places"%string (likes p)
    /\ In "crowded places"%string (dislikes p).
Proof.
  apply (dont_like_phrase_in_both_lists
           ["I love pizza."; "I don't like crowded places."] "crowded places").
  - unfold plain_phrase. repeat split; vm_compute; try reflexivity. lia.
  - right. left. reflexivity.
Defined.

(** C10 as stated fails: "a b" is longer than 2 characters, but the
    pattern skips the article "a" and the phrase left, "b", is too short
    for either list. *)
Lemma dont_like_article_phrase_dropped :
  2 < String.length "a b"
  /\ extract_preferences ["I don't like a b."] = Ok (MkPrefs [] [] []).
Proof. split; [simpl; lia | vm_compute; reflexivity]. Qed.

End PreferenceFacts.

(** ** The result dictionary of the personal facts *)

Module CleanUpFacts.
Import Re MemoryExtractor Spec StrFacts ReFacts FactsProps AllergyFacts.

Lemma facts_step_lists (f : facts) (message : string) (f' : facts) :
  facts_step f message = Ok f' ->
  dietary_preferences f' = dietary_preferences f ++ diet_of message
  /\ other_facts f' = other_facts f.
Proof.
  unfold facts_step. cbv zeta.
  rewrite name_step, location_step. cbn [bind].
  rewrite job_step. cbn [bind].
  rewrite birthday_step. cbn [bind].
  rewrite age_step, allergy_step_spec. cbn [bind].
  intros [= <-]. unfold dietary_step, diet_of. cbv zeta.
  destruct (PyStr.contains "vegetarian" (PyStr.lower message));
    destruct (PyStr.contains "vegan" (PyStr.lower message));
    cbn; rewrite ?app_nil_r, <- ?app_assoc; split; reflexivity.
Qed.

Lemma scan_lists (messages : list string) :
  forall f f',
    facts_scan f messages = Ok f' ->
    dietary_preferences f' = dietary_preferences f ++ flat_map diet_of messages
    /\ other_facts f' = other_facts f.
Proof.
  induction messages as [|m ms IH]; intros f f'; simpl.
  - intros [= ->]. now rewrite app_nil_r.
  - destruct (facts_step f m) as [f1|] eqn:E; [|discriminate]. simpl.
    intros H. destruct (IH _ _ H) as (Hd & Ho).
    destruct (facts_step_lists _ _ _ E) as (Hd1 & Ho1).
    rewrite Hd, Ho, Hd1, Ho1. now rewrite app_assoc.
Qed.

Lemma filter_keys_in_order (p : string * value -> bool) (l : dict) :
  NoDup (map fst l) ->
  map fst (filter p l) = filter (present (filter p l)) (map fst l).
Proof.
  induction l as [|[k0 v0] l IH]; intros Hnd; [reflexivity|].
  inversion Hnd as [|? ? Hn Hd]; subst.
  cbn [filter map fst].
  destruct (p (k0, v0)).
  - cbn [map fst filter]. unfold present at 1. cbn [get]. rewrite String.eqb_refl.
    f_equal. rewrite (IH Hd). apply filter_ext_in.
    intros k Hk. unfold present. cbn [get].
    destruct (String.eqb k0 k) eqn:E; [|reflexivity].
    apply String.eqb_eq in E. subst. contradiction.
  - assert (Hk0 : present (filter p l) k0 = false).
    { unfold present. rewrite get_filter by exact Hd.
      now rewrite (get_absent l k0 Hn). }
    rewrite Hk0. apply IH. exact Hd.
Qed.

(** X1. The dictionary returned by extract_personal_facts holds no value
    that counts as false (no None, no empty string, no 0, no empty list);
    its keys are without repetition and in the order of the working
    dictionary; the key other_facts never appears. *)
Theorem personal_facts_only_filled (messages : list string) :
  exists d,
    extract_personal_facts messages = Ok d
    /\ (forall k v, In (k, v) d -> truthy v = true)
    /\ map fst d = filter (present d) fact_keys
    /\ NoDup (map fst d)
    /\ get d "other_facts" = None.
Proof.
  destruct (facts_result messages) as (f & Hscan & Hres).
  exists (clean_up f). split; [exact Hres|].
  split; [|split; [|split]].
  - intros k v Hin. unfold clean_up in Hin. apply filter_In in Hin.
    destruct Hin as [_ Hp]. simpl in Hp.
    destruct v as [|s|z|l]; simpl in *;
      try (now rewrite orb_false_r in Hp); try discriminate.
    destruct l; [discriminate | reflexivity].
  - unfold clean_up. apply (filter_keys_in_order _ (items f) (items_NoDup f)).
  - unfold clean_up. rewrite (filter_keys_in_order _ (items f) (items_NoDup f)).
    apply NoDup_filter. apply items_NoDup.
  - rewrite (clean_up_list f "other_facts" (other_facts f) eq_refl).
    now rewrite (proj2 (scan_lists _ _ _ Hscan)).
Qed.

(** X2. city and location are always the same in the result: both absent,
    or both present with the same value. *)
Theorem city_and_location_agree (messages : list string) :
  exists d,
    extract_personal_facts messages = Ok d
    /\ get d "city" = get d "location".
Proof.
  destruct (facts_result messages) as (f & Hscan & Hres).
  exists (clean_up f). split; [exact Hres|].
  rewrite (clean_up_str f "city" (city f) eq_refl).
  rewrite (clean_up_str f "location" (location f) eq_refl).
  destruct (scan_city _ _ Hscan) as (-> & ->). reflexivity.
Qed.

Lemma job_role_brings_company (messages : list string) :
  forall f f',
    facts_scan f messages = Ok f' ->
    (truthy_str (job_role f) = true -> truthy_str (company f) = true) ->
    truthy_str (job_role f') = true -> truthy_str (company f') = true.
Proof.
  induction messages as [|m ms IH]; intros f f'; simpl.
  - now intros [= ->].
  - destruct (facts_step f m) as [f1|] eqn:E; [|discriminate]. simpl.
    intros H Hinv. apply (IH _ _ H).
    apply step_fields in E. decompose [and] E. clear E.
    match goal with
    | Hr : job_role f1 = _, Hc : company f1 = _ |- _ => rewrite Hr, Hc
    end.
    unfold keep. destruct (truthy_str (job_role f)) eqn:Et;
      [intros _; now apply Hinv|].
    destruct (job_of m) as [[r c]|] eqn:Ej; simpl.
    + intros _. eapply job_of_company; eauto.
    + rewrite Et. discriminate.
Qed.

(** X3. A result that has a job_role has a company too. *)
Theorem job_role_comes_with_company (messages : list string) :
  exists d,
    extract_personal_facts messages = Ok d
    /\ (present d "job_role" = true -> present d "company" = true).
Proof.
  destruct (facts_result messages) as (f & Hscan & Hres).
  exists (clean_up f). split; [exact Hres|]. unfold present.
  rewrite (clean_up_str f "job_role" (job_role f) eq_refl).
  rewrite (clean_up_str f "company" (company f) eq_refl).
  pose proof (job_role_brings_company _ _ _ Hscan) as Hinv.
  destruct (truthy_str (job_role f)) eqn:Er; [|discriminate].
  assert (Hc : truthy_str (company f) = true)
    by (apply Hinv; [discriminate | reflexivity]).
  rewrite Hc. intros _. now destruct (company f).
Qed.

Lemma job_role_comes_with_company_witness :
  exists d,
    extract_personal_facts ["I work as a nurse at Mercy Hospital."] = Ok d
    /\ present d "job_role" = true /\ present d "company" = true.
Proof.
  destruct (job_role_comes_with_company ["I work as a nurse at Mercy Hospital."])
    as (d & Hd & Hjc).
  exists d. split; [exact Hd|].
  assert (Hj : present d "job_role" = true).
  { vm_compute in Hd. injection Hd as <-. reflexivity. }
  split; [exact Hj | exact (Hjc Hj)].
Defined.

(** X4. Every message adds "vegetarian" when its lowercased text contains
    "vegetarian" and then "vegan" when it contains "vegan"; the
    dietary_preferences of the result are these additions of all messages
    in order, repetitions included, and the key is absent when there are
    none. *)
Theorem dietary_preferences_accumulate (messages : list string) :
  exists d,
    extract_personal_facts messages = Ok d
    /\ get d "dietary_preferences"
       = match flat_map diet_of messages with
         | [] => None
         | l => Some (VList l)
         end.
Proof.
  destruct (facts_result messages) as (f & Hscan & Hres).
  exists (clean_up f). split; [exact Hres|].
  rewrite (clean_up_list f "dietary_preferences" (dietary_preferences f) eq_refl).
  rewrite (proj1 (scan_lists _ _ _ Hscan)). cbn [dietary_preferences facts0 app].
  now destruct (flat_map diet_of messages).
Qed.

Lemma personal_facts_only_filled_witness :
  exists d,
    extract_personal_facts ["I'm 0 years old and I am vegan."] = Ok d
    /\ In ("name", VStr "vegan") d
    /\ truthy (VStr "vegan") = true
    /\ present d "age" = false.
Proof.
  destruct (personal_facts_only_filled ["I'm 0 years old and I am vegan."])
    as (d & Hd & Hv & _).
  exists d. split; [exact Hd|].
  assert (Hin : In ("name", VStr "vegan") d).
  { vm_compute in Hd. injection Hd as <-. now left. }
  split; [exact Hin|]. split; [exact (Hv _ _ Hin)|].
  vm_compute in Hd. injection Hd as <-. reflexivity.
Defined.

End CleanUpFacts.

(** ** Invariants of the preference lists *)

Module PreferenceInvariants.
Import Re MemoryExtractor Spec StrFacts ReFacts FactsProps ReEquations AllergyFacts PreferenceFacts.

(** What holds between a list and the list after [add_new], and goes
    through chains, holds across the loops and across the messages. *)
Section Across.
Variable R : list string -> list string -> Prop.
Hypothesis R_refl : forall l, R l l.
Hypothesis R_trans : forall a b c, R a b -> R b c -> R a c.
Hypothesis R_add : forall item l, R l (add_new item l).

Lemma likes_loop_across (ml : string) :
  forall inds l l', likes_loop inds ml l = Ok l' -> R l l'.
Proof.
  induction inds as [|ind inds IH]; intros l l'; cbn [likes_loop].
  - intros [= ->]. apply R_refl.
  - destruct (PyStr.contains ind ml); [|apply IH].
    destruct (search false (pref_pattern ind) ml) as [m|] eqn:E; [|apply IH].
    destruct (pref_capture_bound _ _ _ E) as (g & ->). cbn [attr bind].
    intros H. eapply R_trans; [apply R_add | apply (IH _ _ H)].
Qed.

Lemma dislikes_loop_across (ml : string) :
  forall inds l l', dislikes_loop inds ml l = Ok l' -> R l l'.
Proof.
  induction inds as [|ind inds IH]; intros l l'; cbn [dislikes_loop].
  - intros [= ->]. apply R_refl.
  - destruct (PyStr.contains ind ml); [|apply IH].
    destruct (search false (pref_pattern ind) ml) as [m|] eqn:E; [|apply IH].
    destruct (pref_capture_bound _ _ _ E) as (g & ->). cbn [attr bind].
    intros H. eapply R_trans; [apply R_add | apply (IH _ _ H)].
Qed.

Lemma likes_dislikes_across (messages : list string) :
  forall p p',
    prefs_scan p messages = Ok p' ->
    R (likes p) (likes p') /\ R (dislikes p) (dislikes p').
Proof.
  induction messages as [|m ms IH]; intros p p'; cbn [prefs_scan].
  - intros [= ->]. split; apply R_refl.
  - destruct (prefs_step p m) as [p1|] eqn:E; [|discriminate]. cbn [bind].
    intros H. destruct (IH _ _ H) as (B1 & B2).
    unfold prefs_step in E. cbv zeta in E.
    destruct (likes_loop like_indicators (PyStr.lower m) (likes p))
      as [l|] eqn:El; [|discriminate].
    destruct (dislikes_loop dislike_indicators (PyStr.lower m) (dislikes p))
      as [d|] eqn:Ed; [|discriminate].
    destruct (favorites_step (PyStr.lower m) (favorites p))
      as [f|] eqn:Ef; [|discriminate].
    cbn [bind] in E. injection E as <-. cbn [likes dislikes] in *.
    split; (eapply R_trans; [|eassumption]).
    + eapply likes_loop_across; eauto.
    + eapply dislikes_loop_across; eauto.
Qed.

Hypothesis R_append :
  forall item l, 2 < String.length item -> R l (l ++ [item]).

Lemma favorites_step_across (ml : string) (l l' : list string) :
  favorites_step ml l = Ok l' -> R l l'.
Proof.
  unfold favorites_step.
  destruct (PyStr.contains "favorite" ml || PyStr.contains "favourite" ml);
    [|intros [= ->]; apply R_refl].
  destruct (search false favorite_pattern ml) as [m|] eqn:E;
    [|intros [= ->]; apply R_refl].
  destruct (search_binds false favorite_pattern 1 ml m eq_refl E) as (g & Hg).
  unfold mgroup. rewrite Hg. cbn [attr bind]. intros [= <-].
  destruct (2 <? String.length (PyStr.strip g))%nat eqn:El; [|apply R_refl].
  apply R_append. now apply Nat.ltb_lt.
Qed.

Lemma prefs_step_across (p p' : preferences) (message : string) :
  prefs_step p message = Ok p' ->
  R (likes p) (likes p') /\ R (dislikes p) (dislikes p')
  /\ R (favorites p) (favorites p').
Proof.
  unfold prefs_step. cbv zeta.
  destruct (likes_loop like_indicators (PyStr.lower message) (likes p))
    as [l|] eqn:El; [|discriminate].
  destruct (dislikes_loop dislike_indicators (PyStr.lower message) (dislikes p))
    as [d|] eqn:Ed; [|discriminate].
  destruct (favorites_step (PyStr.lower message) (favorites p))
    as [f|] eqn:Ef; [|discriminate].
  cbn [bind]. intros [= <-]. cbn [likes dislikes favorites].
  split; [eapply likes_loop_across; eauto|].
  split; [eapply dislikes_loop_across; eauto | eapply favorites_step_across; eauto].
Qed.

Lemma prefs_scan_across (messages : list string) :
  forall p p',
    prefs_scan p messages = Ok p' ->
    R (likes p) (likes p') /\ R (dislikes p) (dislikes p')
    /\ R (favorites p) (favorites p').
Proof.
  induction messages as [|m ms IH]; intros p p'; cbn [prefs_scan].
  - intros [= ->]. repeat split; apply R_refl.
  - destruct (prefs_step p m) as [p1|] eqn:E; [|discriminate]. cbn [bind].
    intros H. destruct (prefs_step_across _ _ _ E) as (A1 & A2 & A3).
    destruct (IH _ _ H) as (B1 & B2 & B3).
    repeat split; eapply R_trans; eauto.
Qed.
End Across.

(** X5. extract_preferences raises for no list of messages; likes and
    dislikes hold no phrase twice; every phrase of likes, dislikes and
    favorites is longer than 2 characters. *)
Theorem preferences_lists_well_formed (messages : list string) :
  exists p,
    extract_preferences messages = Ok p
    /\ NoDup (likes p) /\ NoDup (dislikes p)
    /\ Forall long_phrase (likes p)
    /\ Forall long_phrase (dislikes p)
    /\ Forall long_phrase (favorites p).
Proof.
  unfold extract_preferences.
  destruct (prefs_scan_grows messages (MkPrefs [] [] [])) as (p & Hp & _).
  exists p. split; [exact Hp|].
  assert (Hadd_nd : forall item l, NoDup l -> NoDup (add_new item l)).
  { intros item l Hl. unfold add_new.
    destruct (2 <? String.length item)%nat; simpl; [|exact Hl].
    destruct (PyStr.mem item l) eqn:E; simpl; [exact Hl|].
    apply NoDup_app; [exact Hl | repeat constructor; intros [] |].
    intros x Hx [<-|[]]. apply mem_In in Hx. congruence. }
  assert (Hadd_long : forall item l,
             Forall long_phrase l -> Forall long_phrase (add_new item l)).
  { intros item l Hl. unfold add_new.
    destruct (2 <? String.length item)%nat eqn:E; simpl; [|exact Hl].
    destruct (PyStr.mem item l); simpl; [exact Hl|].
    apply Forall_app. split; [exact Hl|]. constructor; [|constructor].
    now apply Nat.ltb_lt. }
  assert (Happ_long : forall item l, 2 < String.length item ->
             Forall long_phrase l -> Forall long_phrase (l ++ [item])).
  { intros item l Hi Hl. apply Forall_app. split; [exact Hl|].
    constructor; [exact Hi | constructor]. }
  destruct (prefs_scan_across (fun l l' => Forall long_phrase l -> Forall long_phrase l')
              (fun l H => H) (fun a b c H1 H2 H => H2 (H1 H)) Hadd_long Happ_long
              messages _ _ Hp) as (A & B & C).
  pose proof (likes_dislikes_across (fun l l' => NoDup l -> NoDup l')
                (fun l H => H) (fun a b c H1 H2 H => H2 (H1 H)) Hadd_nd
                messages _ _ Hp) as (A' & B').
  cbn [likes dislikes favorites] in *.
  repeat split; first [apply A | apply B | apply C | apply A' | apply B'];
    constructor.
Qed.

Lemma prefs_scan_app (l l' : list string) :
  forall p, prefs_scan p (l ++ l') = (p1 <- prefs_scan p l ;; prefs_scan p1 l').
Proof.
  induction l as [|m l IH]; intros p; simpl; [reflexivity|].
  destruct (prefs_step p m) as [p1|]; simpl; [apply IH | reflexivity].
Qed.

(** X6. The three lists keep the order of first encounter: the lists for a
    batch of messages are the beginnings of the lists for the batch with
    more messages after it. *)
Theorem preferences_only_grow (messages later : list string) :
  exists p p2,
    extract_preferences messages = Ok p
    /\ extract_preferences (messages ++ later) = Ok p2
    /\ extends (likes p) (likes p2)
    /\ extends (dislikes p) (dislikes p2)
    /\ extends (favorites p) (favorites p2).
Proof.
  unfold extract_preferences.
  destruct (prefs_scan_grows messages (MkPrefs [] [] [])) as (p & Hp & _).
  destruct (prefs_scan_grows later p) as (p2 & Hp2 & _).
  exists p, p2. split; [exact Hp|].
  split; [rewrite prefs_scan_app, Hp; exact Hp2|].
  apply (prefs_scan_across extends) with (messages := later); [| | | |exact Hp2].
  - intros l. exists []. now rewrite app_nil_r.
  - intros a b c (x & ->) (y & ->). exists (x ++ y). now rewrite app_assoc.
  - intros item l. unfold add_new.
    destruct ((2 <? String.length item)%nat && negb (PyStr.mem item l)).
    + now exists [item].
    + exists []. now rewrite app_nil_r.
  - intros item l _. now exists [item].
Qed.

Lemma search_lit_absent (p : string) (r : regex) (s : string) :
  forall pos,
    PyStr.contains p s = false ->
    search_from false (Seq (lit_ p) r) pos s = None.
Proof.
  induction s as [|ch s IH]; intros pos H.
  - cbn [PyStr.contains] in H. cbn [search_from rmatch]. rewrite rmatch_lit.
    destruct (PyStr.startswith p ""); [discriminate | reflexivity].
  - cbn [PyStr.contains] in H.
    destruct (PyStr.startswith p (String ch s)) eqn:E; [discriminate|].
    rewrite search_from_lit_miss by exact E. now apply IH.
Qed.

Lemma favorites_need_us_spelling (ml : string) (l : list string) :
  PyStr.contains "favorite" ml = false -> favorites_step ml l = Ok l.
Proof.
  intros H. unfold favorites_step.
  destruct (PyStr.contains "favorite" ml || PyStr.contains "favourite" ml);
    [|reflexivity].
  unfold search, favorite_pattern. cbn [seq_].
  now rewrite search_lit_absent.
Qed.

(** X7. The favorites test looks for "favorite" or "favourite", but the
    pattern is spelled "favorite": messages whose lowercased text does not
    contain "favorite" leave favorites empty, "favourite" or not. *)
Theorem favourite_spelling_adds_nothing (messages : list string) :
  (forall m, In m messages -> PyStr.contains "favorite" (PyStr.lower m) = false) ->
  exists p, extract_preferences messages = Ok p /\ favorites p = [].
Proof.
  unfold extract_preferences.
  assert (G : forall p,
             (forall m, In m messages ->
                        PyStr.contains "favorite" (PyStr.lower m) = false) ->
             exists p', prefs_scan p messages = Ok p' /\ favorites p' = favorites p).
  { induction messages as [|m ms IH]; intros p H; cbn [prefs_scan].
    - now exists p.
    - destruct (prefs_step_grows p m) as (p1 & Hp1 & _).
      rewrite Hp1. cbn [bind].
      destruct (IH p1) as (p2 & Hp2 & Hf); [intros; apply H; now right|].
      exists p2. split; [exact Hp2|]. rewrite Hf.
      unfold prefs_step in Hp1. cbv zeta in Hp1.
      rewrite (favorites_need_us_spelling _ _ (H m (or_introl eq_refl))) in Hp1.
      destruct (likes_loop like_indicators (PyStr.lower m) (likes p)); [|discriminate].
      destruct (dislikes_loop dislike_indicators (PyStr.lower m) (dislikes p));
        [|discriminate].
      cbn [bind] in Hp1. now injection Hp1 as <-. }
  intros H. destruct (G (MkPrefs [] [] []) H) as (p & Hp & Hf). now exists p.
Qed.

Lemma favourite_spelling_adds_nothing_witness :
  exists p,
    extract_preferences ["My favourite colour is blue."; "Favourite is tea."] = Ok p
    /\ favorites p = [].
Proof.
  apply favourite_spelling_adds_nothing.
  intros m [<-|[<-|[]]]; reflexivity.
Defined.

End PreferenceInvariants.

(** ** Invariants of the emotion counter *)

Module EmotionInvariants.
Import MemoryExtractor Spec EmotionFacts.

Lemma incr_ok (c : counter) (e : string) :
  In e categories -> counter_ok c -> counter_ok (incr c e).
Proof.
  intros He. induction c as [|[k n] c IH]; intros Hc y; simpl.
  - intros [<-|[]]. simpl. split; [exact He | lia].
  - destruct (String.eqb k e) eqn:E; simpl.
    + intros [<-|Hy]; simpl.
      * split; [apply (Hc (k, n)); now left | lia].
      * apply Hc. now right.
    + intros [<-|Hy].
      * apply Hc. now left.
      * apply IH; [|exact Hy]. intros z Hz. apply Hc. now right.
Qed.

Lemma emotions_step_ok (c : counter) (m : string) :
  counter_ok c -> counter_ok (emotions_step c m).
Proof.
  intros H. rewrite emotions_step_unfold. cbv zeta.
  repeat match goal with
         | |- context [if mentions ?k m then _ else _] => destruct (mentions k m)
         end;
    repeat (apply incr_ok; [unfold categories, emotion_keywords; simpl; tauto|]);
    exact H.
Qed.

Lemma emotions_scan_ok (messages : list string) :
  forall c, counter_ok c -> counter_ok (fold_left emotions_step messages c).
Proof.
  induction messages as [|m ms IH]; intros c H; simpl; [exact H|].
  apply IH. now apply emotions_step_ok.
Qed.

Lemma count_of_entry (c : counter) (k : string) (n : nat) :
  NoDup (map fst c) -> In (k, n) c -> count c k = n.
Proof.
  intros Hnd Hin. apply in_split in Hin. destruct Hin as (pre & post & ->).
  now apply count_at.
Qed.

Lemma filter_length_le {A : Type} (f : A -> bool) (l : list A) :
  List.length (filter f l) <= List.length l.
Proof.
  induction l as [|x l IH]; simpl; [lia|]. destruct (f x); simpl; lia.
Qed.

Lemma count_outside (messages : list string) (e : string) :
  ~ In e categories -> count (emotions_scan messages) e = 0.
Proof.
  intros He. apply count_not_in. intros Hin.
  apply in_map_iff in Hin. destruct Hin as ([k n] & <- & Hy).
  apply He. apply (emotions_scan_ok messages [] (fun y H => match H with end) _ Hy).
Qed.

Lemma category_keywords (e : string) :
  In e categories -> exists keywords, In (e, keywords) emotion_keywords.
Proof.
  unfold categories. intros H. apply in_map_iff in H.
  destruct H as ([k kws] & <- & Hin). now exists kws.
Qed.

(** X8. In emotion_counts every key is one of the five categories and
    occurs once; a category is a key exactly when some message mentions
    it, and then its count is the number of such messages: at least 1 and
    at most the number of messages. *)
Theorem emotion_counts_entries (messages : list string) :
  let c := emotion_counts (extract_emotions messages) in
  NoDup (map fst c)
  /\ (forall e n, In (e, n) c ->
        exists keywords,
          In (e, keywords) emotion_keywords
          /\ n = List.length (filter (mentions keywords) messages)
          /\ 1 <= n <= List.length messages)
  /\ (forall e keywords,
        In (e, keywords) emotion_keywords ->
        (In e (map fst c) <-> exists m, In m messages /\ mentions keywords m = true)).
Proof.
  unfold extract_emotions; cbn [emotion_counts].
  assert (Hnd : NoDup (map fst (emotions_scan messages)))
    by (apply emotions_scan_NoDup; constructor).
  assert (Hok : counter_ok (emotions_scan messages))
    by (apply emotions_scan_ok; intros y []).
  split; [exact Hnd|]. split.
  - intros e n Hin. destruct (Hok _ Hin) as (Hcat & Hpos). simpl in Hcat, Hpos.
    destruct (category_keywords e Hcat) as (keywords & Hk).
    exists keywords. split; [exact Hk|].
    pose proof (emotions_scan_count messages e keywords Hk []) as Hc.
    fold (emotions_scan messages) in Hc. simpl in Hc.
    rewrite (count_of_entry _ _ _ Hnd Hin) in Hc.
    pose proof (filter_length_le (mentions keywords) messages). lia.
  - intros e keywords Hk.
    pose proof (emotions_scan_count messages e keywords Hk []) as Hc.
    fold (emotions_scan messages) in Hc. simpl in Hc.
    split.
    + intros Hin. apply in_map_iff in Hin. destruct Hin as ([k n] & Hfst & Hy).
      simpl in Hfst. subst k.
      destruct (Hok _ Hy) as (_ & Hpos). simpl in Hpos.
      rewrite (count_of_entry _ _ _ Hnd Hy) in Hc.
      destruct (filter (mentions keywords) messages) as [|m l] eqn:Ef;
        [simpl in Hc; lia|].
      assert (Hm : In m (filter (mentions keywords) messages))
        by (rewrite Ef; now left).
      apply filter_In in Hm. now exists m.
    + intros (m & Hm & Hment).
      assert (Hf : In m (filter (mentions keywords) messages))
        by (apply filter_In; now split).
      destruct (in_dec string_dec e (map fst (emotions_scan messages))) as [Hin|Hn];
        [exact Hin|].
      rewrite (count_not_in _ _ Hn) in Hc.
      destruct (filter (mentions keywords) messages); [destruct Hf | simpl in Hc; lia].
Qed.

Lemma emotion_counts_entries_witness :
  In "sad" (map fst (emotion_counts
                       (extract_emotions ["so happy"; "I miss you, sadly"]))).
Proof.
  apply (proj2 (proj2 (emotion_counts_entries ["so happy"; "I miss you, sadly"]))
           "sad" ["sad"; "miss"; "depressed"; "down"; "unhappy"; "melancholy"]).
  - unfold emotion_keywords; simpl; tauto.
  - exists "I miss you, sadly". split; [right; now left | reflexivity].
Defined.

(** X9. Counting is additive over batches: for every key, the count for
    two batches put together is the sum of the counts of each, and so is
    total_emotional_messages, which never exceeds 5 times the number of
    messages. *)
Theorem emotions_additive (first second : list string) :
  (forall e, count (emotion_counts (extract_emotions (first ++ second))) e
             = count (emotion_counts (extract_emotions first)) e
               + count (emotion_counts (extract_emotions second)) e)
  /\ total_emotional_messages (extract_emotions (first ++ second))
     = total_emotional_messages (extract_emotions first)
       + total_emotional_messages (extract_emotions second)
  /\ total_emotional_messages (extract_emotions first) <= 5 * List.length first.
Proof.
  unfold extract_emotions; cbn [emotion_counts total_emotional_messages].
  assert (Hadd : forall e,
             count (emotions_scan (first ++ second)) e
             = count (emotions_scan first) e + count (emotions_scan second) e).
  { intros e. destruct (in_dec string_dec e categories) as [Hin|Hn].
    - destruct (category_keywords e Hin) as (keywords & Hk).
      unfold emotions_scan.
      rewrite !(emotions_scan_count _ e keywords Hk []).
      rewrite filter_app, length_app. simpl. lia.
    - now rewrite !count_outside. }
  assert (Htot : forall l, sum_values (emotions_scan l) = sum_of_counts (emotions_scan l)).
  { intros l. apply emotions_scan_total. reflexivity. }
  split; [exact Hadd|]. split.
  - rewrite !Htot. unfold sum_of_counts, categories, emotion_keywords. simpl.
    rewrite !Hadd. lia.
  - rewrite Htot. unfold sum_of_counts, categories. 
    assert (Hle : forall e, count (emotions_scan first) e <= List.length first).
    { intros e. destruct (in_dec string_dec e (map fst emotion_keywords)) as [Hin|Hn].
      - destruct (category_keywords e Hin) as (keywords & Hk).
        unfold emotions_scan. rewrite (emotions_scan_count _ e keywords Hk []).
        simpl. apply filter_length_le.
      - rewrite count_outside by exact Hn. lia. }
    unfold emotion_keywords. simpl.
    pose proof (Hle "happy"). pose proof (Hle "sad"). pose proof (Hle "anxious").
    pose proof (Hle "frustrated"). pose proof (Hle "calm"). lia.
Qed.

End EmotionInvariants.

(** ** The frame of the three styles *)

Module StyleFrames.
Import MemoryExtractor PersonalityEngine Spec StrFacts EngineFacts.
Local Open Scope string_scope.

Lemma startswith_sep (c : ascii) (b : string) :
  forall old a,
    old <> "" -> lacks c old = true ->
    PyStr.startswith old (a ++ String c b) = PyStr.startswith old a.
Proof.
  induction old as [|o old IH]; intros a Hne Hl; [congruence|].
  unfold lacks in Hl. cbn [Re.all_chars] in Hl.
  apply andb_true_iff in Hl. destruct Hl as [Ho Hl].
  apply negb_true_iff in Ho.
  destruct a as [|x a]; cbn [append PyStr.startswith].
  - now rewrite Ho.
  - destruct old as [|o' old]; [reflexivity|].
    rewrite IH; [reflexivity | discriminate | exact Hl].
Qed.

Lemma startswith_length (old s : string) :
  PyStr.startswith old s = true -> String.length old <= String.length s.
Proof.
  revert s. induction old as [|o old IH]; intros s; simpl; [lia|].
  destruct s as [|x s]; [discriminate|]. intros H.
  apply andb_true_iff in H. destruct H as [_ H]. apply IH in H. simpl. lia.
Qed.

Lemma replace_from_sep (old new : string) (c : ascii) (b : string) :
  old <> "" -> lacks c old = true ->
  forall a skip,
    skip <= String.length a ->
    PyStr.replace_from old new skip (a ++ String c b)
    = PyStr.replace_from old new skip a ++ String c (PyStr.replace_from old new 0 b).
Proof.
  intros Hne Hl. induction a as [|x a IH]; intros skip Hs.
  - simpl in Hs. replace skip with 0 by lia.
    cbn [append PyStr.replace_from].
    pose proof (startswith_sep c b old "" Hne Hl) as E. cbn [append] in E.
    rewrite E. destruct old; [congruence | reflexivity].
  - change (String x a ++ String c b) with (String x (a ++ String c b)).
    cbn [PyStr.replace_from]. destruct skip as [|skip].
    + change (String x (a ++ String c b)) with (String x a ++ String c b).
      rewrite (startswith_sep c b old (String x a) Hne Hl).
      destruct (PyStr.startswith old (String x a)) eqn:E.
      * apply startswith_length in E. simpl in E.
        rewrite IH by lia. now rewrite append_assoc.
      * rewrite IH by lia. reflexivity.
    + apply IH. simpl in Hs. lia.
Qed.

(** A text that is not in the old phrase cuts the replacement in two. *)
Lemma replace_sep (old new : string) (c : ascii) (a b : string) :
  old <> "" -> lacks c old = true ->
  PyStr.replace old new (a ++ String c b)
  = PyStr.replace old new a ++ String c (PyStr.replace old new b).
Proof.
  intros Hne Hl. unfold PyStr.replace. apply replace_from_sep; auto. lia.
Qed.

Lemma replace_cons_sep (old new : string) (c : ascii) (b : string) :
  old <> "" -> lacks c old = true ->
  PyStr.replace old new (String c b) = String c (PyStr.replace old new b).
Proof. intros Hne Hl. apply (replace_sep old new c "" b Hne Hl). Qed.

Lemma replace_absent (old new : string) (s : string) :
  PyStr.contains old s = false -> PyStr.replace old new s = s.
Proof.
  unfold PyStr.replace. induction s as [|x s IH]; intros H; [reflexivity|].
  cbn [PyStr.contains] in H. cbn [PyStr.replace_from].
  destruct (PyStr.startswith old (String x s)); [discriminate|].
  now rewrite (IH H).
Qed.

Lemma replace_frame (old new opening closing text : string) :
  old <> "" -> lacks nl old = true ->
  PyStr.replace old new opening = opening ->
  PyStr.replace old new closing = closing ->
  PyStr.replace old new (opening ++ nl2 ++ text ++ nl2 ++ closing)
  = opening ++ nl2 ++ PyStr.replace old new text ++ nl2 ++ closing.
Proof.
  intros Hne Hl Ho Hc. unfold nl2. cbn [append].
  rewrite (replace_sep old new nl opening _ Hne Hl), Ho.
  rewrite (replace_cons_sep old new nl _ Hne Hl).
  rewrite (replace_sep old new nl text _ Hne Hl).
  rewrite (replace_cons_sep old new nl _ Hne Hl), Hc.
  reflexivity.
Qed.

Lemma replace_head (old new opening text : string) :
  old <> "" -> lacks nl old = true ->
  PyStr.replace old new opening = opening ->
  PyStr.replace old new (opening ++ nl2 ++ text)
  = opening ++ nl2 ++ PyStr.replace old new text.
Proof.
  intros Hne Hl Ho. unfold nl2. cbn [append].
  rewrite (replace_sep old new nl opening _ Hne Hl), Ho.
  rewrite (replace_cons_sep old new nl _ Hne Hl).
  reflexivity.
Qed.

Lemma calm_frame (self : engine) (base_response : string) :
  calm_mentor_style self base_response
  = calm_opening ++ nl2 ++ calm_subst base_response ++ nl2 ++ calm_closing.
Proof.
  unfold calm_mentor_style, calm_subst. cbv zeta.
  fold calm_opening calm_closing.
  rewrite (append_assoc calm_opening), (append_assoc nl2).
  rewrite !replace_frame; try reflexivity; discriminate.
Qed.

Lemma contains_skip (old : string) (x : ascii) (s : string) :
  PyStr.startswith old (String x s) = false ->
  PyStr.contains old (String x s) = PyStr.contains old s.
Proof. intros H. cbn [PyStr.contains]. now rewrite H. Qed.

Lemma contains_sep (old : string) (c : ascii) (a b : string) :
  old <> "" -> lacks c old = true ->
  PyStr.contains old (a ++ String c b) = PyStr.contains old a || PyStr.contains old b.
Proof.
  intros Hne Hl. induction a as [|x a IH].
  - pose proof (startswith_sep c b old "" Hne Hl) as E. cbn [append] in *.
    cbn [PyStr.contains]. rewrite E.
    destruct old; [congruence | reflexivity].
  - change (String x a ++ String c b) with (String x (a ++ String c b)).
    cbn [PyStr.contains].
    change (String x (a ++ String c b)) with (String x a ++ String c b).
    rewrite (startswith_sep c b old (String x a) Hne Hl), IH.
    now destruct (PyStr.startswith old (String x a)).
Qed.


Lemma startswith_has (c : ascii) :
  forall old s,
    PyStr.startswith old s = true ->
    PyStr.contains (String c "") old = true ->
    PyStr.contains (String c "") s = true.
Proof.
  induction old as [|o old IH]; intros s Hs Hc.
  - cbn in Hc. discriminate.
  - destruct s as [|x s]; [discriminate|].
    cbn [PyStr.startswith] in Hs. apply andb_true_iff in Hs. destruct Hs as [Ho Hs].
    apply Ascii.eqb_eq in Ho. subst x.
    cbn [PyStr.contains PyStr.startswith] in *. rewrite andb_true_r in *.
    destruct (Ascii.eqb c o); [reflexivity|]. now apply IH.
Qed.

(** A text without the character [c] holds no phrase that has it. *)
Lemma contains_needs_char (c : ascii) (old s : string) :
  PyStr.contains (String c "") old = true ->
  PyStr.contains (String c "") s = false ->
  PyStr.contains old s = false.
Proof.
  intros Hc. induction s as [|x s IH]; intros Hs.
  - cbn [PyStr.contains].
    destruct (PyStr.startswith old "") eqn:E; [|reflexivity].
    pose proof (startswith_has c old "" E Hc). congruence.
  - cbn [PyStr.contains].
    destruct (PyStr.startswith old (String x s)) eqn:E.
    + pose proof (startswith_has c old _ E Hc). congruence.
    + apply IH. cbn [PyStr.contains] in Hs.
      now destruct (PyStr.startswith (String c "") (String x s)).
Qed.

Lemma witty_opening_clean (user_name old : string) :
  PyStr.contains " " user_name = false ->
  In old ["I understand"; "You should"; "It is important"; "I recommend"] ->
  PyStr.contains old (witty_opening user_name) = false.
Proof.
  intros Hn Hin. unfold witty_opening.
  change ("Hey " ++ user_name ++ "! So here's the thing...")
    with (String "H" (String "e" (String "y" (String " "
            (user_name ++ String "!" " So here's the thing..."))))).
  simpl in Hin. decompose [or] Hin; subst; try contradiction;
    rewrite !contains_skip by reflexivity;
    rewrite contains_sep by (try discriminate; reflexivity);
    (erewrite (contains_needs_char " "%char); [reflexivity | reflexivity | exact Hn]).
Qed.

Lemma therapist_opening_clean (user_name old : string) :
  PyStr.contains " " user_name = false ->
  In old ["I think"; "You should"; "You need to"] ->
  PyStr.contains old (therapist_opening user_name) = false.
Proof.
  intros Hn Hin. unfold therapist_opening.
  change ("I hear you, " ++ user_name ++ ". Let's explore this together.")
    with (String "I" (String " " (String "h" (String "e" (String "a" (String "r"
         (String " " (String "y" (String "o" (String "u" (String "," (String " "
            (user_name ++ String "." " Let's explore this together."))))))))))))).
  simpl in Hin. decompose [or] Hin; subst; try contradiction;
    rewrite !contains_skip by reflexivity;
    rewrite contains_sep by (try discriminate; reflexivity);
    (erewrite (contains_needs_char " "%char); [reflexivity | reflexivity | exact Hn]).
Qed.

Lemma witty_frame (self : engine) (base_response : string) :
  PyStr.contains " " (get_user_name self) = false ->
  witty_friend_style self base_response
  = witty_opening (get_user_name self) ++ nl2 ++ witty_subst base_response
      ++ nl2 ++ witty_closing.
Proof.
  intros Hn. unfold witty_friend_style, witty_subst. cbv zeta.
  fold (witty_opening (get_user_name self)). fold witty_closing.
  rewrite !replace_head;
    try (apply replace_absent; apply witty_opening_clean; [exact Hn | simpl; tauto]);
    try discriminate; try reflexivity.
  now rewrite !append_assoc.
Qed.

Lemma therapist_frame (self : engine) (base_response : string) :
  PyStr.contains " " (get_user_name self) = false ->
  therapist_style self base_response
  = therapist_opening (get_user_name self) ++ nl2 ++ therapist_subst base_response
      ++ nl2 ++ therapist_question ++ nl2 ++ therapist_closing.
Proof.
  intros Hn. unfold therapist_style, therapist_subst. cbv zeta.
  fold (therapist_opening (get_user_name self)).
  fold therapist_question therapist_closing.
  rewrite !replace_head;
    try (apply replace_absent; apply therapist_opening_clean; [exact Hn | simpl; tauto]);
    try discriminate; try reflexivity.
  now rewrite !append_assoc.
Qed.

(** C9. In calm_mentor_style the replacements of "You should break",
    "You should take" and "You should create" run before the replacement
    of "You should": the text between the opening and the closing is the
    base text after the six replacements in that order, so a base text
    that starts with one of the three phrases comes out starting with
    "You might consider breaking", "taking" or "creating", while another
    verb gets the generic form; for "You should take a break." the output
    contains "You might consider taking a break." and not "You might
    consider take". *)
Theorem calm_mentor_specific_before_generic (self : engine) (base_response : string) :
  calm_mentor_style self base_response
  = calm_opening ++ nl2 ++ calm_subst base_response ++ nl2 ++ calm_closing
  /\ (forall rest, exists tail,
        calm_mentor_style self ("You should break" ++ rest)
        = calm_opening ++ nl2 ++ "You might consider breaking" ++ tail)
  /\ (forall rest, exists tail,
        calm_mentor_style self ("You should take" ++ rest)
        = calm_opening ++ nl2 ++ "You might consider taking" ++ tail)
  /\ (forall rest, exists tail,
        calm_mentor_style self ("You should create" ++ rest)
        = calm_opening ++ nl2 ++ "You might consider creating" ++ tail)
  /\ calm_mentor_style self "You should rest."
     = calm_opening ++ nl2 ++ "You might consider rest." ++ nl2 ++ calm_closing
  /\ calm_mentor_style self "You should take a break."
     = calm_opening ++ nl2 ++ "You might consider taking a break."
         ++ nl2 ++ calm_closing
  /\ PyStr.contains "You might consider taking a break."
       (calm_mentor_style self "You should take a break.") = true
  /\ PyStr.contains "You might consider take"
       (calm_mentor_style self "You should take a break.") = false.
Proof.
  split; [apply calm_frame|].
  split; [|split; [|split; [|repeat split; vm_compute; reflexivity]]];
    intros rest; unfold calm_mentor_style, PyStr.replace, calm_opening, nl2;
    simpl; eexists; reflexivity.
Qed.

(** X10. Each style gives its opening, a blank line, the base text with
    the style's replacements, a blank line and its closing (the therapist
    with its question before the closing).  The replacements never change
    the opening or the closing, although they run over them: always for the
    calm mentor, and for the other two when the user name holds no blank. *)
Theorem styles_keep_their_frame (self : engine) (base_response : string) :
  calm_mentor_style self base_response
  = calm_opening ++ nl2 ++ calm_subst base_response ++ nl2 ++ calm_closing
  /\ (PyStr.contains " " (get_user_name self) = false ->
      witty_friend_style self base_response
      = witty_opening (get_user_name self) ++ nl2 ++ witty_subst base_response
          ++ nl2 ++ witty_closing
      /\ therapist_style self base_response
         = therapist_opening (get_user_name self) ++ nl2
             ++ therapist_subst base_response
             ++ nl2 ++ therapist_question ++ nl2 ++ therapist_closing).
Proof.
  split; [apply calm_frame|]. intros Hn.
  split; [now apply witty_frame | now apply therapist_frame].
Qed.

Lemma styles_keep_their_frame_witness :
  witty_friend_style (Some [("name", VStr "Sarah")]) "You should rest."
  = witty_opening "Sarah" ++ nl2 ++ witty_subst "You should rest."
      ++ nl2 ++ witty_closing.
Proof.
  apply (proj2 (styles_keep_their_frame (Some [("name", VStr "Sarah")])
                  "You should rest.")).
  reflexivity.
Defined.



Lemma norm_char_idempotent (ch : ascii) : norm_char (norm_char ch) = norm_char ch.
Proof. destruct ch as [[] [] [] [] [] [] [] []]; reflexivity. Qed.

Lemma normalize_idempotent (style : string) :
  normalize (normalize style) = normalize style.
Proof.
  rewrite !normalize_chars.
  induction style as [|ch style IH]; [reflexivity|].
  cbn [map_string]. now rewrite norm_char_idempotent, IH.
Qed.

(** X12. rewrite_response looks only at the normalized style name:
    normalizing twice changes nothing, so a name and its normalized form
    (such as "Calm Mentor" and "calm_mentor") give the same text, or the
    same error. *)
Theorem dispatch_on_normalized_name (self : engine) (base_response style : string) :
  normalize (normalize style) = normalize style
  /\ rewrite_response self base_response (normalize style)
     = rewrite_response self base_response style.
Proof.
  split; [apply normalize_idempotent|].
  unfold rewrite_response. cbv zeta. now rewrite normalize_idempotent.
Qed.

(** X13. demonstrate_improvement returns the base text under "before" and,
    under each of the three style names, the text that rewrite_response
    returns for that name. *)
Theorem demonstrate_agrees_with_dispatch (self : engine) (base_response : string) :
  lookup (demonstrate_improvement self base_response) "before" = Some base_response
  /\ map fst (demonstrate_improvement self base_response)
     = ["before"; "calm_mentor"; "witty_friend"; "therapist"]
  /\ forall style text,
       In (style, text) (demonstrate_improvement self base_response) ->
       style <> "before" ->
       rewrite_response self base_response style = Ok text.
Proof.
  split; [reflexivity|]. split; [reflexivity|].
  intros style text Hin Hne. unfold demonstrate_improvement in Hin. simpl in Hin.
  decompose [or] Hin; try contradiction;
    match goal with H : (_, _) = (_, _) |- _ => injection H as <- <- end;
    [congruence | reflexivity | reflexivity | reflexivity].
Qed.

Lemma demonstrate_agrees_with_dispatch_witness :
  rewrite_response None "Rest." "therapist" = Ok (therapist_style None "Rest.").
Proof.
  apply (proj2 (proj2 (demonstrate_agrees_with_dispatch None "Rest."))).
  - right. right. right. left. reflexivity.
  - discriminate.
Defined.

End StyleFrames.

(** ** The engine on an extracted memory *)

Module EngineOnMemory.
Import Re MemoryExtractor PersonalityEngine Spec StrFacts ReFacts FactsProps PreferenceFacts StyleFrames.
Local Open Scope string_scope.

Lemma iter_set_chars (ic neg : bool) (items : list item) (lo : nat) (hi : option nat) :
  forall n s c s' c',
    iter (denote ic (Set_ neg items)) lo hi n s c s' c' ->
    exists t, s = t ++ s'
              /\ all_chars (set_matches ic neg items) t = true
              /\ lo <= n + String.length t.
Proof.
  induction 1 as [n s c Hlo | n s c s1 c1 s' c' Hb HP Hlen Hit IH].
  - exists "". simpl. splits; [reflexivity | reflexivity | lia].
  - destruct IH as (t & -> & Ht & Hn).
    cbn [denote] in HP. destruct HP as (b & -> & Hm & _).
    exists (String b t). cbn [all_chars String.length append].
    rewrite Hm, Ht. splits; [reflexivity | reflexivity | lia].
Qed.

Lemma az_letters (b : ascii) :
  (set_matches true false [IRange "A" "Z"] b = true -> is_letter b = true)
  /\ (set_matches true false [IRange "a" "z"] b = true -> is_letter b = true).
Proof.
  destruct b as [[] [] [] [] [] [] [] []];
    vm_compute; split; intros H; try reflexivity; discriminate H.
Qed.

Lemma all_chars_impl (P Q : ascii -> bool) (s : string) :
  (forall b, P b = true -> Q b = true) ->
  all_chars P s = true -> all_chars Q s = true.
Proof.
  intros HPQ. induction s as [|b s IH]; simpl; [reflexivity|].
  intros H. apply andb_true_iff in H. destruct H as (Hb & Hs).
  now rewrite (HPQ _ Hb), IH.
Qed.

Lemma cap_word_letters (s : string) (c : caps) (s' : string) (c' : caps) :
  denote true cap_word s c s' c' ->
  all_chars is_letter (consumed s s') = true
  /\ 2 <= String.length (consumed s s').
Proof.
  unfold cap_word, upper_az, lower_az, plus. cbn [denote].
  intros (s1 & c1 & (b & -> & Hb & _) & Hit).
  apply iter_set_chars in Hit. destruct Hit as (t & -> & Ht & Hn).
  change (String b (t ++ s')) with (String b t ++ s').
  rewrite consumed_append. cbn [all_chars String.length]. split; [|lia].
  rewrite (proj1 (az_letters b) Hb). cbn [andb].
  apply (all_chars_impl _ _ _ (fun b => proj2 (az_letters b)) Ht).
Qed.

Lemma name_of_letters (message v : string) :
  name_of message = Some v ->
  all_chars is_letter v = true /\ 2 <= String.length v.
Proof.
  unfold name_of. destruct (first_match name_patterns message) as [m|] eqn:E; [|discriminate].
  apply first_match_in in E. destruct E as (p & Hin & H).
  apply search_sound in H. destruct H as (s0 & H).
  assert (Hl : last_of p = Group 1 cap_word).
  { simpl in Hin. decompose [or] Hin; subst; try reflexivity; contradiction. }
  destruct (denote_last _ _ _ _ Hl _ _ _ _ H) as (s1 & c1 & c2 & Hb & Hc).
  apply cap_word_letters in Hb.
  unfold mgroup. rewrite Hc, group_set_group. now intros [= <-].
Qed.

Lemma letters_no_blank (s : string) :
  all_chars is_letter s = true -> PyStr.contains " " s = false.
Proof.
  intros H. apply (contains_needs_char " "%char " " s eq_refl).
  revert H. induction s as [|b s IH]; simpl; [reflexivity|].
  intros H. apply andb_true_iff in H. destruct H as (Hb & Hs).
  rewrite (IH Hs).
  destruct b as [[] [] [] [] [] [] [] []]; try reflexivity; discriminate Hb.
Qed.

Lemma first_name_letters (messages : list string) (v : string) :
  first_some name_of messages = Some v ->
  all_chars is_letter v = true /\ 2 <= String.length v.
Proof.
  apply (first_some_good name_of
           (fun v => all_chars is_letter v = true /\ 2 <= String.length v)).
  intros m y. apply name_of_letters.
Qed.

Lemma user_name_of_facts (messages : list string) (f : facts) :
  facts_scan facts0 messages = Ok f ->
  get_user_name (Some (clean_up f))
  = match first_some name_of messages with Some n => n | None => "there" end.
Proof.
  intros Hscan. unfold get_user_name.
  rewrite (clean_up_str f "name" (name f) eq_refl), (scan_name _ _ Hscan).
  rewrite (first_some_truthy name_of truthy_str messages name_of_nonempty eq_refl).
  destruct (first_some name_of messages) as [v|] eqn:E; [|reflexivity].
  cbn [option_map]. destruct (first_name_letters _ _ E) as (_ & Hl).
  destruct v; [simpl in Hl; lia | reflexivity].
Qed.

(** X14. extract_all raises for no list of messages, and an engine built
    on its result greets the user by the first extracted name, or by
    "there" when no message gives one.  That word has at least two
    characters, all of them letters, so the witty friend and the therapist
    keep their opening and closing around the rewritten base text. *)
Theorem engine_on_extracted_memory (messages : list string) (base_response : string) :
  exists mem,
    extract_all messages = Ok mem
    /\ get_user_name (Some (personal_facts mem))
       = match first_some name_of messages with Some n => n | None => "there" end
    /\ all_chars is_letter (get_user_name (Some (personal_facts mem))) = true
    /\ 2 <= String.length (get_user_name (Some (personal_facts mem)))
    /\ witty_friend_style (Some (personal_facts mem)) base_response
       = witty_opening (get_user_name (Some (personal_facts mem))) ++ nl2
           ++ witty_subst base_response ++ nl2 ++ witty_closing
    /\ therapist_style (Some (personal_facts mem)) base_response
       = therapist_opening (get_user_name (Some (personal_facts mem))) ++ nl2
           ++ therapist_subst base_response
           ++ nl2 ++ therapist_question ++ nl2 ++ therapist_closing.
Proof.
  destruct (facts_result messages) as (f & Hscan & Hres).
  destruct (prefs_scan_grows messages (MkPrefs [] [] [])) as (p & Hp & _).
  exists (MkMemory (clean_up f) p (extract_emotions messages)).
  split.
  { unfold extract_all, extract_preferences. rewrite Hres, Hp. reflexivity. }
  cbn [personal_facts].
  pose proof (user_name_of_facts _ _ Hscan) as Hname.
  assert (Hw : all_chars is_letter (get_user_name (Some (clean_up f))) = true
               /\ 2 <= String.length (get_user_name (Some (clean_up f)))).
  { rewrite Hname. destruct (first_some name_of messages) as [v|] eqn:E.
    - now apply (first_name_letters messages).
    - split; [reflexivity | simpl; lia]. }
  destruct Hw as (Hlet & Hlen).
  pose proof (letters_no_blank _ Hlet) as Hblank.
  splits; [exact Hname | exact Hlet | exact Hlen
          | now apply witty_frame | now apply therapist_frame].
Qed.

End EngineOnMemory.
